(** * Null-safe aggregation protocol of [ray.data.aggregate]

    A shallow embedding of [python/ray/data/aggregate.py]: the null-safety
    wrappers ([_null_safe_zero_factory], [_null_safe_combine],
    [_null_safe_finalize]), the constructors of the built-in aggregation
    kinds and their raw [combine] / [_finalize] methods, followed by the
    properties of the aggregation algebra.

    Python values are dynamically typed; the fragment manipulated by the
    module is modelled by the type [Value] below.  Numbers are exact:
    a Python [int] and the ideal value of a Python [float] are both a
    canonical rational ([Qc]); the three non-finite floats the module
    creates ([float("+inf")], [float("-inf")], [np.nan]) are separate
    constructors.  Floating-point rounding is not modelled.  Exceptions
    are results of type [result]; the functions of other modules that the
    code calls ([is_null], [math.sqrt]) are introduced where they are
    first used. *)

From Stdlib Require Import ZArith QArith Qcanon Qround Lia Lqa.
From Stdlib Require Import Sorted Permutation.
From Stdlib Require PrimFloat.
From stdpp Require Import base gmap strings list sorting.

Local Open Scope Z_scope.

(** ** Exceptions and fallible computations *)

Inductive exn : Type :=
| ValueError
| TypeError
| ZeroDivisionError
| IndexError
| OverflowError
| Unsupported. (* an operation of Python outside the modelled fragment *)

Inductive result (A : Type) : Type :=
| OK (a : A)
| Raise (e : exn).
Arguments OK {A} a.
Arguments Raise {A} e.

Global Instance result_ret : MRet result := fun _ a => OK a.
Global Instance result_bind : MBind result := fun _ _ k m =>
  match m with
  | OK a => k a
  | Raise e => Raise e
  end.

(** ** Numbers *)

Inductive num : Type :=
| Fin (q : Qc)   (* an int, or a finite float *)
| PInf           (* float("+inf") *)
| NInf           (* float("-inf") *)
| NaN.           (* np.nan *)

Global Instance num_eq_dec : EqDecision num.
Proof. solve_decision. Defined.

Definition Qc_is_zero (q : Qc) : bool := bool_decide (q = 0%Qc).
Definition Qc_ltb (a b : Qc) : bool := bool_decide (a < b)%Qc.

Definition Qc_sign (q : Qc) : comparison := (q ?= 0)%Qc.

Definition num_neg (a : num) : num :=
  match a with
  | Fin q => Fin (- q)%Qc
  | PInf => NInf
  | NInf => PInf
  | NaN => NaN
  end.

Definition num_add (a b : num) : num :=
  match a, b with
  | NaN, _ | _, NaN => NaN
  | Fin x, Fin y => Fin (x + y)%Qc
  | PInf, NInf | NInf, PInf => NaN
  | PInf, _ | _, PInf => PInf
  | NInf, _ | _, NInf => NInf
  end.

Definition num_sub (a b : num) : num := num_add a (num_neg b).

(** The sign of an infinity multiplied by a finite factor. *)
Definition inf_times (positive : bool) (q : Qc) : num :=
  match Qc_sign q with
  | Eq => NaN
  | Gt => if positive then PInf else NInf
  | Lt => if positive then NInf else PInf
  end.

Definition num_mul (a b : num) : num :=
  match a, b with
  | NaN, _ | _, NaN => NaN
  | Fin x, Fin y => Fin (x * y)%Qc
  | PInf, Fin y | Fin y, PInf => inf_times true y
  | NInf, Fin y | Fin y, NInf => inf_times false y
  | PInf, PInf | NInf, NInf => PInf
  | PInf, NInf | NInf, PInf => NInf
  end.

(** [a / b]: Python raises [ZeroDivisionError] for a zero divisor, whatever
    the dividend. *)
Definition num_div (a b : num) : result num :=
  match b with
  | Fin y =>
      if Qc_is_zero y then Raise ZeroDivisionError
      else match a with
           | Fin x => OK (Fin (x / y)%Qc)
           | PInf => OK (inf_times true y)
           | NInf => OK (inf_times false y)
           | NaN => OK NaN
           end
  | PInf | NInf =>
      match a with
      | Fin _ => OK (Fin 0%Qc)
      | _ => OK NaN
      end
  | NaN => OK NaN
  end.

(** [a < b]; every comparison with [nan] is false. *)
Definition num_ltb (a b : num) : bool :=
  match a, b with
  | NaN, _ | _, NaN => false
  | Fin x, Fin y => Qc_ltb x y
  | NInf, NInf | PInf, PInf => false
  | NInf, _ | _, PInf => true
  | _, NInf | PInf, _ => false
  end.

Definition num_eqb (a b : num) : bool :=
  match a, b with
  | NaN, _ | _, NaN => false
  | _, _ => bool_decide (a = b)
  end.

Definition num_leb (a b : num) : bool := num_ltb a b || num_eqb a b.

Global Program Instance num_countable : Countable num :=
  inj_countable'
    (fun n => match n with
              | Fin q => inl q
              | PInf => inr (inl ())
              | NInf => inr (inr (inl ()))
              | NaN => inr (inr (inr ()))
              end)
    (fun s => match s with
              | inl q => Fin q
              | inr (inl _) => PInf
              | inr (inr (inl _)) => NInf
              | inr (inr (inr _)) => NaN
              end) _.
Next Obligation. by intros []. Qed.

(** ** Python values *)

(** The hashable values: [None], numbers and strings. *)
Inductive Scalar : Type :=
| SNone
| SNum (n : num)
| SStr (s : string).

Global Instance Scalar_eq_dec : EqDecision Scalar.
Proof. solve_decision. Defined.

Global Program Instance Scalar_countable : Countable Scalar :=
  inj_countable'
    (fun x => match x with
              | SNone => inl ()
              | SNum n => inr (inl n)
              | SStr s => inr (inr s)
              end)
    (fun s => match s with
              | inl _ => SNone
              | inr (inl n) => SNum n
              | inr (inr s) => SStr s
              end) _.
Next Obligation. by intros []. Qed.

#[warnings="-register-all"]
Inductive Value : Type :=
| VS (s : Scalar)
| VList (l : list Value)
| VSet (g : gset Scalar).

Abbreviation VNone := (VS SNone).
Abbreviation VNum n := (VS (SNum n)).
Abbreviation VStr s := (VS (SStr s)).

(** An integer literal of the source. *)
Definition int (z : Z) : Value := VNum (Fin (Q2Qc (inject_Z z))).

(** A finite number as a value. *)
Definition finite (x : Qc) : Value := VNum (Fin x).

(** ** The Python operators the module uses

    Each operator is total on [Value]: it returns what Python returns, or
    the exception Python raises.  The few cases in which Python computes
    something the aggregations never rely on (repetition of a sequence by
    [*], comparison of two lists, indexing, unpacking or iterating over a
    string or a set) are reported as [Unsupported] rather than given a
    made-up meaning. *)

(** [a + b] *)
Definition py_add (a b : Value) : result Value :=
  match a, b with
  | VNum x, VNum y => OK (VNum (num_add x y))
  | VStr s, VStr t => OK (VStr (s +:+ t))
  | VList l, VList m => OK (VList (l ++ m))
  | _, _ => Raise TypeError
  end.

(** [a - b] *)
Definition py_sub (a b : Value) : result Value :=
  match a, b with
  | VNum x, VNum y => OK (VNum (num_sub x y))
  | VSet g, VSet h => OK (VSet (g ∖ h))
  | _, _ => Raise TypeError
  end.

(** [a * b] *)
Definition py_mul (a b : Value) : result Value :=
  match a, b with
  | VNum x, VNum y => OK (VNum (num_mul x y))
  | VNum _, (VStr _ | VList _) | (VStr _ | VList _), VNum _ => Raise Unsupported
  | _, _ => Raise TypeError
  end.

(** [a / b] *)
Definition py_truediv (a b : Value) : result Value :=
  match a, b with
  | VNum x, VNum y => n ← num_div x y; OK (VNum n)
  | _, _ => Raise TypeError
  end.

(** [a ** 2] *)
Definition py_pow2 (a : Value) : result Value :=
  match a with
  | VNum x => OK (VNum (num_mul x x))
  | _ => Raise TypeError
  end.

(** [a < b] *)
Definition py_lt (a b : Value) : result bool :=
  match a, b with
  | VNum x, VNum y => OK (num_ltb x y)
  | VStr s, VStr t => OK (String.ltb s t)
  | VSet g, VSet h => OK (bool_decide (g ⊂ h))
  | VList _, VList _ => Raise Unsupported
  | _, _ => Raise TypeError
  end.

(** [a > b], which the built-in types answer as [b < a]. *)
Definition py_gt (a b : Value) : result bool := py_lt b a.

(** [a <= b] *)
Definition py_le (a b : Value) : result bool :=
  match a, b with
  | VNum x, VNum y => OK (num_leb x y)
  | VStr s, VStr t => OK (String.leb s t)
  | VSet g, VSet h => OK (bool_decide (g ⊆ h))
  | VList _, VList _ => Raise Unsupported
  | _, _ => Raise TypeError
  end.

(** [a == 0] *)
Definition py_eq_zero (a : Value) : bool :=
  match a with
  | VNum x => num_eqb x (Fin 0%Qc)
  | _ => false
  end.

(** [a != ""] *)
Definition py_ne_empty_str (a : Value) : bool :=
  match a with
  | VStr s => negb (String.eqb s "")
  | _ => true
  end.

(** [a is not None] *)
Definition py_is_not_None (a : Value) : bool :=
  match a with
  | VNone => false
  | _ => true
  end.

(** [min(a, b)] keeps [a] unless [b < a]; [max(a, b)] keeps [a] unless
    [b > a]. *)
Definition py_min (a b : Value) : result Value :=
  lt ← py_lt b a; OK (if lt : bool then b else a).

Definition py_max (a b : Value) : result Value :=
  gt ← py_gt b a; OK (if gt : bool then b else a).

(** [l[i]] for a Python integer [i]: a negative index counts from the end. *)
Definition list_getitem {A} (l : list A) (i : Z) : result A :=
  let n := Z.of_nat (length l) in
  let j := if i <? 0 then i + n else i in
  if (j <? 0) || (n <=? j) then Raise IndexError
  else match l !! Z.to_nat j with
       | Some x => OK x
       | None => Raise IndexError
       end.

(** [a[i]] *)
Definition py_getitem (a : Value) (i : Z) : result Value :=
  match a with
  | VList l => list_getitem l i
  | VStr _ => Raise Unsupported
  | _ => Raise TypeError
  end.

(** [x, y, z = a]: unpacking into exactly three names. *)
Definition py_unpack3 (a : Value) : result (Value * Value * Value) :=
  match a with
  | VList [x; y; z] => OK (x, y, z)
  | VList _ => Raise ValueError
  | VStr _ | VSet _ => Raise Unsupported
  | _ => Raise TypeError
  end.

(** ** Null values *)

(** Modelled from the spec: [is_null], imported by the module from
    [ray.data._internal.util], whose source is not part of the files
    embedded here.  The specification reserves a single "null" value for
    the two roles a null plays (section 3, Null Representation); that
    value is Python's [None]. *)
Definition is_null (v : Value) : bool :=
  match v with
  | VNone => true
  | _ => false
  end.

(** ** The null-safety wrappers *)

(** [_null_safe_zero_factory(zero_factory, ignore_nulls)]: the returned
    function takes (and ignores) the group key. *)
Definition _null_safe_zero_factory (zero_factory : unit → Value)
    (ignore_nulls : bool) : Value → Value :=
  if ignore_nulls then fun _ => VNone
  else fun _ => zero_factory ().

(** [_null_safe_aggregate(aggregate, ignore_nulls)], over any type of
    blocks. *)
Definition _null_safe_aggregate {Block : Type}
    (aggregate : Block → result Value) (ignore_nulls : bool)
    : Block → result Value :=
  fun block =>
    result ← aggregate block;
    if is_null result && ignore_nulls then OK VNone else OK result.

(** [_null_safe_finalize(finalize)] *)
Definition _null_safe_finalize (finalize : Value → result Value)
    : Value → result Value :=
  fun acc => if is_null acc then OK acc else finalize acc.

(** [_null_safe_combine(combine, ignore_nulls)] *)
Definition _null_safe_combine (combine : Value → Value → result Value)
    (ignore_nulls : bool) : Value → Value → result Value :=
  if ignore_nulls then
    fun cur new =>
      if is_null cur then OK new
      else if is_null new then OK cur
      else combine cur new
  else
    fun cur new =>
      if is_null new then OK new
      else if is_null cur then OK cur
      else combine cur new.

(** ** The built-in aggregation kinds *)

(** The concrete subclasses of [AggregateFnV2], each with the attributes
    its own constructor stores ([Std._ddof], [Quantile._q]). *)
Inductive Kind : Type :=
| Count
| Sum
| Min
| Max
| Mean
| Std (_ddof : Z)
| AbsMax
| Quantile (_q : num)
| Unique.

(** The [zero_factory] each constructor passes to the base class. *)
Definition zero_factory (k : Kind) : unit → Value :=
  match k with
  | Count | Sum | AbsMax => fun _ => int 0
  | Min => fun _ => VNum PInf
  | Max => fun _ => VNum NInf
  | Mean => fun _ => VList [int 0; int 0]
  | Std _ => fun _ => VList [int 0; int 0; int 0]
  | Quantile _ => fun _ => VList []
  | Unique => fun _ => VSet ∅
  end.

(** *** Raw [combine] methods *)

Definition Count_combine (current_accumulator new : Value) : result Value :=
  py_add current_accumulator new.

Definition Sum_combine (current_accumulator new : Value) : result Value :=
  py_add current_accumulator new.

Definition Min_combine (current_accumulator new : Value) : result Value :=
  py_min current_accumulator new.

Definition Max_combine (current_accumulator new : Value) : result Value :=
  py_max current_accumulator new.

Definition AbsMax_combine (current_accumulator new : Value) : result Value :=
  py_max current_accumulator new.

Definition Mean_combine (current_accumulator new : Value) : result Value :=
  c0 ← py_getitem current_accumulator 0;
  n0 ← py_getitem new 0;
  s ← py_add c0 n0;
  c1 ← py_getitem current_accumulator 1;
  n1 ← py_getitem new 1;
  c ← py_add c1 n1;
  OK (VList [s; c]).

Definition Std_combine (current_accumulator new : Value) : result Value :=
  '(M2_a, mean_a, count_a) ← py_unpack3 current_accumulator;
  '(M2_b, mean_b, count_b) ← py_unpack3 new;
  delta ← py_sub mean_b mean_a;
  count ← py_add count_a count_b;
  wa ← py_mul mean_a count_a;
  wb ← py_mul mean_b count_b;
  wsum ← py_add wa wb;
  mean ← py_truediv wsum count;
  m2ab ← py_add M2_a M2_b;
  d2 ← py_pow2 delta;
  d2a ← py_mul d2 count_a;
  d2ab ← py_mul d2a count_b;
  corr ← py_truediv d2ab count;
  M2 ← py_add m2ab corr;
  OK (VList [M2; mean; count]).

(** The guard [x is not None and x != ""] of [Quantile.combine]. *)
Definition keeps (x : Value) : bool := py_is_not_None x && py_ne_empty_str x.

(** [Quantile.combine]; the lists are updated in place in the source, and
    the value returned is the one held by the updated list. *)
Definition Quantile_combine (current_accumulator new : Value) : result Value :=
  match current_accumulator, new with
  | VList cur, VList nw => OK (VList (cur ++ nw))
  | VList cur, _ =>
      OK (VList (if keeps new then cur ++ [new] else cur))
  | _, VList nw =>
      OK (VList (if keeps current_accumulator
                 then nw ++ [current_accumulator] else nw))
  | _, _ =>
      let ls := [] in
      let ls := if keeps current_accumulator
                then ls ++ [current_accumulator] else ls in
      let ls := if keeps new then ls ++ [new] else ls in
      OK (VList ls)
  end.

(** [Unique._to_set]; [set(x)] raises [TypeError] on an unhashable
    element. *)
Definition to_scalar (v : Value) : result Scalar :=
  match v with
  | VS s => OK s
  | _ => Raise TypeError
  end.

Fixpoint set_of_list (l : list Value) : result (gset Scalar) :=
  match l with
  | [] => OK ∅
  | v :: l' => s ← to_scalar v; g ← set_of_list l'; OK ({[ s ]} ∪ g)
  end.

Definition _to_set (x : Value) : result (gset Scalar) :=
  match x with
  | VSet g => OK g
  | VList l => set_of_list l
  | VS s => OK {[ s ]}
  end.

Definition Unique_combine (current_accumulator new : Value) : result Value :=
  a ← _to_set current_accumulator;
  b ← _to_set new;
  OK (VSet (a ∪ b)).

Definition combine (k : Kind) : Value → Value → result Value :=
  match k with
  | Count => Count_combine
  | Sum => Sum_combine
  | Min => Min_combine
  | Max => Max_combine
  | Mean => Mean_combine
  | Std _ => Std_combine
  | AbsMax => AbsMax_combine
  | Quantile _ => Quantile_combine
  | Unique => Unique_combine
  end.

(** *** Library functions used by the [_finalize] methods *)

(** [sorted(l)].  Python's sort is stable and uses [<] only; the insertion
    below places an element in front of the first one that is not smaller
    than it.  Where [<] is not a total order (sets are ordered by
    inclusion, [nan] is unordered) the list Python returns depends on its
    sorting algorithm, and the comparison is reported as [Unsupported]. *)
Definition sort_lt (a b : Value) : result bool :=
  match a, b with
  | VNum NaN, _ | _, VNum NaN => Raise Unsupported
  | VSet _, VSet _ => Raise Unsupported
  | _, _ => py_lt a b
  end.

Fixpoint sort_insert (x : Value) (l : list Value) : result (list Value) :=
  match l with
  | [] => OK [x]
  | y :: l' =>
      lt ← sort_lt y x;
      if lt : bool then r ← sort_insert x l'; OK (y :: r)
      else OK (x :: y :: l')
  end.

Fixpoint py_sorted (l : list Value) : result (list Value) :=
  match l with
  | [] => OK []
  | x :: l' => r ← py_sorted l'; sort_insert x r
  end.

(** [math.floor(k)], [math.ceil(k)] and [int(k)] of a number. *)
Definition math_floor (k : num) : result Z :=
  match k with
  | Fin q => OK (Qfloor q)
  | NaN => Raise ValueError
  | PInf | NInf => Raise OverflowError
  end.

Definition math_ceil (k : num) : result Z :=
  match k with
  | Fin q => OK (Qceiling q)
  | NaN => Raise ValueError
  | PInf | NInf => Raise OverflowError
  end.

Definition py_int (k : num) : result Z :=
  match k with
  | Fin q => OK (Z.quot (Qnum q) (Zpos (Qden q)))
  | NaN => Raise ValueError
  | PInf | NInf => Raise OverflowError
  end.

(** The integer nearest to [q], a tie going to the even one. *)
Definition round_half_even (q : Q) : Z :=
  let f := Qfloor q in
  match (q - inject_Z f ?= 1 # 2)%Q with
  | Lt => f
  | Gt => f + 1
  | Eq => if Z.even f then f else f + 1
  end.

(** [round(x, 5)] *)
Definition round5 (q : Qc) : Qc :=
  Q2Qc (inject_Z (round_half_even (q * inject_Z 100000)) / inject_Z 100000).

Definition py_round5 (x : Value) : result Value :=
  match x with
  | VNum (Fin q) => OK (VNum (Fin (round5 q)))
  | VNum n => OK (VNum n)
  | _ => Raise TypeError
  end.

(** The items a comprehension [[v for v in a ...]] iterates over. *)
Definition py_iter (a : Value) : result (list Value) :=
  match a with
  | VList l => OK l
  | VStr _ | VSet _ => Raise Unsupported
  | _ => Raise TypeError
  end.

(** *** Raw [_finalize] methods *)

Section Finalize.

(** [math.sqrt], a function of the C library. *)
Variable math_sqrt : num → result num.

Definition py_math_sqrt (x : Value) : result Value :=
  match x with
  | VNum n => r ← math_sqrt n; OK (VNum r)
  | _ => Raise TypeError
  end.

(** [AggregateFnV2._finalize], inherited by the kinds that do not
    override it. *)
Definition default_finalize (accumulator : Value) : result Value :=
  OK accumulator.

Definition Mean_finalize (accumulator : Value) : result Value :=
  a1 ← py_getitem accumulator 1;
  if py_eq_zero a1 then OK (VNum NaN)
  else
    s ← py_getitem accumulator 0;
    c ← py_getitem accumulator 1;
    py_truediv s c.

Definition Std_finalize (_ddof : Z) (accumulator : Value) : result Value :=
  '(M2, mean, count) ← py_unpack3 accumulator;
  d ← py_sub count (int _ddof);
  le ← py_le d (int 0);
  if le : bool then OK (VNum NaN)
  else
    d' ← py_sub count (int _ddof);
    v ← py_truediv M2 d';
    py_math_sqrt v.

(** The part of [Quantile._finalize] after the nulls are dealt with. *)
Definition Quantile_rank (_q : num) (accumulator : list Value)
    : result Value :=
  match accumulator with
  | [] => OK VNone
  | _ =>
      input_values ← py_sorted accumulator;
      let k := num_mul (Fin (Q2Qc (inject_Z (Z.of_nat (length input_values) - 1)))) _q in
      f ← math_floor k;
      c ← math_ceil k;
      if f =? c then
        i ← py_int k;
        list_getitem input_values i
      else
        x0 ← list_getitem input_values f;
        d0 ← py_mul x0 (VNum (num_sub (Fin (Q2Qc (inject_Z c))) k));
        x1 ← list_getitem input_values c;
        d1 ← py_mul x1 (VNum (num_sub k (Fin (Q2Qc (inject_Z f)))));
        s ← py_add d0 d1;
        py_round5 s
  end.

Definition Quantile_finalize (_ignore_nulls : bool) (_q : num)
    (accumulator : Value) : result Value :=
  items ← py_iter accumulator;
  if _ignore_nulls then
    Quantile_rank _q (List.filter (fun v => negb (is_null v)) items)
  else
    let nulls := List.filter is_null items in
    if (0 <? Z.of_nat (length nulls)) then list_getitem nulls 0
    else Quantile_rank _q items.

Definition _finalize (k : Kind) (_ignore_nulls : bool)
    : Value → result Value :=
  match k with
  | Mean => Mean_finalize
  | Std _ddof => Std_finalize _ddof
  | Quantile _q => Quantile_finalize _ignore_nulls _q
  | Count | Sum | Min | Max | AbsMax | Unique => default_finalize
  end.

End Finalize.

(** ** Construction *)

(** An instance: the attributes set by [AggregateFn.__init__] ([name],
    [init], [merge], [finalize]) and by [AggregateFnV2.__init__]
    ([_target_col_name], [_ignore_nulls]), and the concrete subclass.
    The block-level attribute [accumulate_block] works on the engine's
    blocks through [BlockAccessor] and is left out. *)
Record AggregateFnV2 : Type := {
  name : string;
  init : Value → Value;
  merge : Value → Value → result Value;
  finalize : Value → result Value;
  _target_col_name : option string;
  _ignore_nulls : bool;
  kind : Kind
}.

(** Truth value of an optional string: [None] and [""] are false. *)
Definition truthy (s : option string) : bool :=
  match s with
  | Some s => negb (String.eqb s "")
  | None => false
  end.

(** [str(on)] and [on or ''] for an optional column name. *)
Definition str (on : option string) : string :=
  match on with
  | Some s => s
  | None => "None"
  end.

Definition or_empty (on : option string) : string :=
  if truthy on then default "" on else "".

Section Construction.

Variable math_sqrt : num → result num.

(** [AggregateFnV2.__init__], followed by [AggregateFn.__init__], which
    it calls with [accumulate_block] alone (so the "exactly one of
    accumulate_row or accumulate_block" test passes) and whose remaining
    test is [isinstance(name, str)]. *)
Definition AggregateFnV2__init__ (k : Kind) (name : option string)
    (zero_factory : unit → Value) (on : option string)
    (ignore_nulls : bool) : result AggregateFnV2 :=
  if negb (truthy name) then Raise ValueError
  else
    let _safe_combine := _null_safe_combine (combine k) ignore_nulls in
    let _safe_finalize :=
      _null_safe_finalize (_finalize math_sqrt k ignore_nulls) in
    let _safe_zero_factory :=
      _null_safe_zero_factory zero_factory ignore_nulls in
    match name with
    | None => Raise TypeError
    | Some name =>
        OK {| name := name;
              init := _safe_zero_factory;
              merge := _safe_combine;
              finalize := _safe_finalize;
              _target_col_name := on;
              _ignore_nulls := ignore_nulls;
              kind := k |}
    end.

(** The name a built-in kind passes to the base class:
    [alias_name if alias_name else <canonical name>]. *)
Definition alias_or (alias_name : option string) (canonical : string)
    : option string :=
  if truthy alias_name then alias_name else Some canonical.

(** The constructors.  An [ignore_nulls], [ddof] or [q] of [None] stands
    for an argument left out, which takes the default of the signature. *)
Definition Count__init__ (on : option string) (ignore_nulls : option bool)
    (alias_name : option string) : result AggregateFnV2 :=
  AggregateFnV2__init__ Count
    (alias_or alias_name ("count(" +:+ or_empty on +:+ ")"))
    (zero_factory Count) on (default false ignore_nulls).

Definition Sum__init__ (on : option string) (ignore_nulls : option bool)
    (alias_name : option string) : result AggregateFnV2 :=
  AggregateFnV2__init__ Sum
    (alias_or alias_name ("sum(" +:+ str on +:+ ")"))
    (zero_factory Sum) on (default true ignore_nulls).

Definition Min__init__ (on : option string) (ignore_nulls : option bool)
    (alias_name : option string) : result AggregateFnV2 :=
  AggregateFnV2__init__ Min
    (alias_or alias_name ("min(" +:+ str on +:+ ")"))
    (zero_factory Min) on (default true ignore_nulls).

Definition Max__init__ (on : option string) (ignore_nulls : option bool)
    (alias_name : option string) : result AggregateFnV2 :=
  AggregateFnV2__init__ Max
    (alias_or alias_name ("max(" +:+ str on +:+ ")"))
    (zero_factory Max) on (default true ignore_nulls).

Definition Mean__init__ (on : option string) (ignore_nulls : option bool)
    (alias_name : option string) : result AggregateFnV2 :=
  AggregateFnV2__init__ Mean
    (alias_or alias_name ("mean(" +:+ str on +:+ ")"))
    (zero_factory Mean) on (default true ignore_nulls).

Definition Std__init__ (on : option string) (ddof : option Z)
    (ignore_nulls : option bool) (alias_name : option string)
    : result AggregateFnV2 :=
  let k := Std (default 1 ddof) in
  AggregateFnV2__init__ k
    (alias_or alias_name ("std(" +:+ str on +:+ ")"))
    (zero_factory k) on (default true ignore_nulls).

Definition AbsMax__init__ (on : option string) (ignore_nulls : option bool)
    (alias_name : option string) : result AggregateFnV2 :=
  match on with
  | None => Raise ValueError
  | Some _ => (* [isinstance(on, str)] holds of every column name *)
      AggregateFnV2__init__ AbsMax
        (alias_or alias_name ("abs_max(" +:+ str on +:+ ")"))
        (zero_factory AbsMax) on (default true ignore_nulls)
  end.

Definition Quantile__init__ (on : option string) (q : option num)
    (ignore_nulls : option bool) (alias_name : option string)
    : result AggregateFnV2 :=
  let k := Quantile (default (Fin (Q2Qc (1 # 2))) q) in
  AggregateFnV2__init__ k
    (alias_or alias_name ("quantile(" +:+ str on +:+ ")"))
    (zero_factory k) on (default true ignore_nulls).

Definition Unique__init__ (on : option string) (ignore_nulls : option bool)
    (alias_name : option string) : result AggregateFnV2 :=
  AggregateFnV2__init__ Unique
    (alias_or alias_name ("unique(" +:+ str on +:+ ")"))
    (zero_factory Unique) on (default true ignore_nulls).

(** The constructor of a kind, with the kind's own parameters taken from
    the kind. *)
Definition construct (k : Kind) (on : option string)
    (ignore_nulls : option bool) (alias_name : option string)
    : result AggregateFnV2 :=
  match k with
  | Count => Count__init__ on ignore_nulls alias_name
  | Sum => Sum__init__ on ignore_nulls alias_name
  | Min => Min__init__ on ignore_nulls alias_name
  | Max => Max__init__ on ignore_nulls alias_name
  | Mean => Mean__init__ on ignore_nulls alias_name
  | Std ddof => Std__init__ on (Some ddof) ignore_nulls alias_name
  | AbsMax => AbsMax__init__ on ignore_nulls alias_name
  | Quantile q => Quantile__init__ on (Some q) ignore_nulls alias_name
  | Unique => Unique__init__ on ignore_nulls alias_name
  end.

End Construction.

(** ** The reduction of a group *)

(** The partial accumulators [xs] of a group merged one after the other
    into [acc], as the engine does with the [merge] of an instance. *)
Fixpoint merge_all (merge : Value → Value → result Value) (acc : Value)
    (xs : list Value) : result Value :=
  match xs with
  | [] => OK acc
  | x :: xs' => acc' ← merge acc x; merge_all merge acc' xs'
  end.

(** The canonical ["<kind>(<column>)"] display name of a kind. *)
Definition canonical_name (k : Kind) (on : option string) : string :=
  match k with
  | Count => "count(" +:+ or_empty on +:+ ")"
  | Sum => "sum(" +:+ str on +:+ ")"
  | Min => "min(" +:+ str on +:+ ")"
  | Max => "max(" +:+ str on +:+ ")"
  | Mean => "mean(" +:+ str on +:+ ")"
  | Std _ => "std(" +:+ str on +:+ ")"
  | AbsMax => "abs_max(" +:+ str on +:+ ")"
  | Quantile _ => "quantile(" +:+ str on +:+ ")"
  | Unique => "unique(" +:+ str on +:+ ")"
  end.

(** The default of [ignore_nulls] in the signature of each constructor. *)
Definition default_ignore_nulls (k : Kind) : bool :=
  match k with
  | Count => false
  | _ => true
  end.

(** A [math.sqrt] for the instances built in examples whose [finalize] is
    never run on a [Std] accumulator. *)
Definition sqrt_unused : num → result num := fun _ => Raise Unsupported.

(** The instance a successful construction of kind [k] returns. *)
Definition instance_of (math_sqrt : num → result num) (k : Kind)
    (on : option string) (ignore_nulls : bool) (name : string)
    : AggregateFnV2 :=
  {| name := name;
     init := _null_safe_zero_factory (zero_factory k) ignore_nulls;
     merge := _null_safe_combine (combine k) ignore_nulls;
     finalize := _null_safe_finalize (_finalize math_sqrt k ignore_nulls);
     _target_col_name := on;
     _ignore_nulls := ignore_nulls;
     kind := k |}.

(** "Null or the empty string": the scalars that the merge rules of
    [Quantile.combine] skip, in the words of the specification. *)
Definition null_or_empty_string (x : Value) : bool :=
  match x with
  | VNone => true
  | VStr s => bool_decide (s = "")
  | _ => false
  end.

Definition is_list (x : Value) : bool :=
  match x with
  | VList _ => true
  | _ => false
  end.

(** A triple of numbers as a [Std] accumulator. *)
Definition triple (M2 mean count : num) : Value :=
  VList [VNum M2; VNum mean; VNum count].

(** *** The two forms of the merged mean

    [Std.combine] computes the merged mean as a weighted average; its
    comment sets that form against the incremental one,
    [mean_a + delta * count_b / count].  Both are written here over an
    arbitrary arithmetic, to be read in exact arithmetic and in IEEE 754
    binary64, the arithmetic of a Python [float].  The division is the one
    of the arithmetic: the forms are compared for a count other than 0
    only. *)
Class Arith (N : Type) : Type := {
  plus : N → N → N;
  minus : N → N → N;
  times : N → N → N;
  divide : N → N → N
}.

Definition weighted_mean {N} `{Arith N} (mean_a count_a mean_b count_b : N)
    : N :=
  divide (plus (times mean_a count_a) (times mean_b count_b))
         (plus count_a count_b).

Definition incremental_mean {N} `{Arith N} (mean_a count_a mean_b count_b : N)
    : N :=
  plus mean_a
       (divide (times (minus mean_b mean_a) count_b) (plus count_a count_b)).

Global Instance exact_arith : Arith Qc :=
  {| plus := Qcplus; minus := Qcminus; times := Qcmult; divide := Qcdiv |}.

Global Instance binary64_arith : Arith PrimFloat.float :=
  {| plus := PrimFloat.add; minus := PrimFloat.sub;
     times := PrimFloat.mul; divide := PrimFloat.div |}.

(** *** The quantile in the words of the specification *)

(** A value of a column: null or a finite number. *)
Definition column_value (v : Value) : Prop := v = VNone ∨ ∃ x : Qc, v = finite x.

(** The finite numbers among the entries of a list, in their order. *)
Fixpoint numbers (l : list Value) : list Qc :=
  match l with
  | [] => []
  | VNum (Fin x) :: l' => x :: numbers l'
  | _ :: l' => numbers l'
  end.

Definition Zc (z : Z) : Qc := Q2Qc (inject_Z z).

(** The linear-interpolation quantile of a list sorted in ascending order:
    with [k = (n - 1) * q], [f = floor k] and [c = ceil k], the element at
    index [k] when [f = c], and otherwise
    [sorted[f] * (c - k) + sorted[c] * (k - f)] rounded to 5 decimal
    places. *)
Definition quantile_of_sorted (q : Qc) (sorted : list Qc) : Qc :=
  let k := (Zc (Z.of_nat (length sorted) - 1) * q)%Qc in
  let f := Qfloor k in
  let c := Qceiling k in
  if decide (f = c) then nth (Z.to_nat f) sorted 0%Qc
  else round5 (nth (Z.to_nat f) sorted 0%Qc * (Zc c - k)
               + nth (Z.to_nat c) sorted 0%Qc * (k - Zc f))%Qc.

(** *** Accumulators *)

(** The accumulators of a kind other than null: a finite number for
    [Count] and [Sum]; a number other than [nan] for [Min], [Max] and
    [AbsMax] (their zero values are infinite); a pair [[sum, count]] for
    [Mean]; a triple [[M2, mean, count]] over at least one value for [Std];
    a list for [Quantile]; a set, or the list of distinct values of a
    block, for [Unique]. *)
Definition shape (k : Kind) (v : Value) : Prop :=
  match k with
  | Count | Sum => ∃ x : Qc, v = finite x
  | Min | Max | AbsMax => ∃ n : num, n ≠ NaN ∧ v = VNum n
  | Mean => ∃ s c : Qc, v = VList [finite s; finite c]
  | Std _ =>
      ∃ M2 mean count : Qc,
        (0 < count)%Qc ∧ v = triple (Fin M2) (Fin mean) (Fin count)
  | Quantile _ => ∃ l : list Value, v = VList l
  | Unique =>
      (∃ g : gset Scalar, v = VSet g) ∨ (∃ l : list Scalar, v = VList (VS <$> l))
  end.

(** An accumulator of a kind: null, or of the shape of the kind. *)
Definition accumulator (k : Kind) (v : Value) : Prop :=
  v = VNone ∨ shape k v.

(** Two results that are equal, or lists with the same entries in a
    different order. *)
Definition same_entries (r1 r2 : result Value) : Prop :=
  match r1, r2 with
  | OK (VList l1), OK (VList l2) => Permutation l1 l2
  | _, _ => r1 = r2
  end.

(** [min] and [max] on numbers. *)
Definition num_min (x y : num) : num := if num_ltb y x then y else x.
Definition num_max (x y : num) : num := if num_ltb x y then y else x.

(** ** Aggregation of a block

    The [aggregate_block] methods read a block through [BlockAccessor],
    which belongs to the engine; its methods are the variables of this
    section.  [iter_rows] gives, for each row, the function [row.get];
    [unique] stands for the distinct values of a column as a Python list
    ([pac.unique(col).to_pylist()]). *)

(** [abs(a)] *)
Definition py_abs (a : Value) : result Value :=
  match a with
  | VNum (Fin x) => OK (VNum (Fin (if Qc_ltb x 0 then - x else x)%Qc))
  | VNum NInf => OK (VNum PInf)
  | VNum n => OK (VNum n)
  | _ => Raise TypeError
  end.

Section Blocks.

Context {Block : Type}.
Variable num_rows : Block → result Value.
Variables count sum min max : Block → option string → bool → result Value.
Variable sum_of_squared_diffs_from_mean :
  Block → option string → bool → Value → result Value.
Variable iter_rows : Block → result (list (option string → Value)).
Variable unique : Block → option string → result (list Value).

(** The attributes [_target_col_name] and [_ignore_nulls] of the instance
    are the first two arguments. *)
Definition Count_aggregate_block (_target_col_name : option string)
    (_ignore_nulls : bool) (block : Block) : result Value :=
  match _target_col_name with
  | None => num_rows block
  | Some _ => count block _target_col_name _ignore_nulls
  end.

Definition Mean_aggregate_block (_target_col_name : option string)
    (_ignore_nulls : bool) (block : Block) : result Value :=
  count ← count block _target_col_name _ignore_nulls;
  if py_eq_zero count || negb (py_is_not_None count) then OK VNone
  else
    sum_ ← sum block _target_col_name _ignore_nulls;
    if is_null sum_ then OK sum_
    else OK (VList [sum_; count]).

Definition Std_aggregate_block (_target_col_name : option string)
    (_ignore_nulls : bool) (block : Block) : result Value :=
  count ← count block _target_col_name _ignore_nulls;
  if py_eq_zero count || negb (py_is_not_None count) then OK VNone
  else
    sum_ ← sum block _target_col_name _ignore_nulls;
    if is_null sum_ then OK sum_
    else
      mean ← py_truediv sum_ count;
      M2 ← sum_of_squared_diffs_from_mean block _target_col_name
             _ignore_nulls mean;
      OK (VList [M2; mean; count]).

Definition AbsMax_aggregate_block (_target_col_name : option string)
    (_ignore_nulls : bool) (block : Block) : result Value :=
  max_ ← max block _target_col_name _ignore_nulls;
  min_ ← min block _target_col_name _ignore_nulls;
  if is_null max_ || is_null min_ then OK VNone
  else
    a ← py_abs max_;
    b ← py_abs min_;
    py_max a b.

Definition Quantile_aggregate_block (_target_col_name : option string)
    (block : Block) : result Value :=
  rows ← iter_rows block;
  OK (VList ((λ row, row _target_col_name) <$> rows)).

Definition Unique_aggregate_block (_target_col_name : option string)
    (block : Block) : result Value :=
  values ← unique block _target_col_name;
  OK (VList values).

Definition aggregate_block (k : Kind) (_target_col_name : option string)
    (_ignore_nulls : bool) : Block → result Value :=
  match k with
  | Count => Count_aggregate_block _target_col_name _ignore_nulls
  | Sum => λ block, sum block _target_col_name _ignore_nulls
  | Min => λ block, min block _target_col_name _ignore_nulls
  | Max => λ block, max block _target_col_name _ignore_nulls
  | Mean => Mean_aggregate_block _target_col_name _ignore_nulls
  | Std _ => Std_aggregate_block _target_col_name _ignore_nulls
  | AbsMax => AbsMax_aggregate_block _target_col_name _ignore_nulls
  | Quantile _ => Quantile_aggregate_block _target_col_name
  | Unique => Unique_aggregate_block _target_col_name
  end.

(** The accumulators an instance of kind [k] can hold: the initial one,
    those of the blocks, and the merges of two of them. *)
Inductive produced (k : Kind) (on : option string) (ignore_nulls : bool)
    : Value → Prop :=
| produced_init key :
    produced k on ignore_nulls
      (_null_safe_zero_factory (zero_factory k) ignore_nulls key)
| produced_block block v :
    _null_safe_aggregate (aggregate_block k on ignore_nulls) ignore_nulls block
      = OK v →
    produced k on ignore_nulls v
| produced_merge a b r :
    produced k on ignore_nulls a → produced k on ignore_nulls b →
    _null_safe_combine (combine k) ignore_nulls a b = OK r →
    produced k on ignore_nulls r.

End Blocks.

(** *** [Quantile.combine] on list objects

    [Quantile.combine] updates a list operand in place ([extend],
    [append]) and returns that same object.  Here the list objects live in
    a store and an operand is a reference to one of them or a value that is
    not a list; [Quantile_combine] above is the value the returned object
    holds. *)
Abbreviation store := (gmap nat (list Value)).

Inductive operand : Type :=
| Ref (l : nat)       (* a list object *)
| Other (v : Value).  (* a value that is not a list *)

Definition deref (σ : store) (l : nat) : result (list Value) :=
  match σ !! l with
  | Some items => OK items
  | None => Raise Unsupported (* no such object: not an operand of [σ] *)
  end.

Definition Quantile_combine_in_place (σ : store)
    (current_accumulator new : operand) : result (store * operand) :=
  match current_accumulator, new with
  | Ref c, Ref n =>
      cur ← deref σ c;
      nw ← deref σ n;
      OK (<[c := cur ++ nw]> σ, Ref c)
  | Ref c, Other v =>
      cur ← deref σ c;
      OK (if keeps v then <[c := cur ++ [v]]> σ else σ, Ref c)
  | Other v, Ref n =>
      nw ← deref σ n;
      OK (if keeps v then <[n := nw ++ [v]]> σ else σ, Ref n)
  | Other v, Other w =>
      let ls := [] in
      let ls := if keeps v then ls ++ [v] else ls in
      let ls := if keeps w then ls ++ [w] else ls in
      let l := fresh (dom σ) in
      OK (<[l := ls]> σ, Ref l)
  end.

(** The value an operand stands for in a store. *)
Definition value_of (σ : store) (o : operand) : result Value :=
  match o with
  | Ref l => items ← deref σ l; OK (VList items)
  | Other v => if is_list v then Raise Unsupported else OK v
  end.

(** *** The accumulators of a list of values

    What [Mean.aggregate_block] and [Std.aggregate_block] compute for a
    block whose column holds the numbers [xs]: the sum, the count, the mean
    and the sum of the squared differences from the mean. *)
Definition Qc_sum (xs : list Qc) : Qc := foldr Qcplus 0%Qc xs.

Definition count_of (xs : list Qc) : Qc := Zc (Z.of_nat (length xs)).

Definition mean_of (xs : list Qc) : Qc := (Qc_sum xs / count_of xs)%Qc.

Definition squared_diffs (mean : Qc) (xs : list Qc) : Qc :=
  Qc_sum ((λ x, (x - mean) * (x - mean))%Qc <$> xs).

Definition Mean_accumulator (xs : list Qc) : Value :=
  VList [finite (Qc_sum xs); finite (count_of xs)].

Definition Std_accumulator (xs : list Qc) : Value :=
  triple (Fin (squared_diffs (mean_of xs) xs)) (Fin (mean_of xs))
         (Fin (count_of xs)).

(** The accumulator [Mean.aggregate_block] and [Std.aggregate_block] return
    for a block whose column holds the values [xs]: null when there is no
    value to count. *)
Definition block_accumulator (accumulator_of : list Qc → Value)
    (xs : list Qc) : Value :=
  match xs with
  | [] => VNone
  | _ :: _ => accumulator_of xs
  end.

(** ** The deprecated [AggregateFn]

    [AggregateFn.__init__] receives its callables as arguments; an argument
    left out ([accumulate_row], [accumulate_block], [finalize]) is [None].
    A callable may raise.  The rows of a block come from
    [BlockAccessor.iter_rows], which belongs to the engine and is the
    variable of the section. *)
Module AggregateFn.

Record t (Block : Type) : Type := {
  name : string;
  init : Value → result Value;
  merge : Value → Value → result Value;
  accumulate_block : Value → Block → result Value;
  finalize : Value → result Value
}.
Arguments name {Block} _.
Arguments init {Block} _ _.
Arguments merge {Block} _ _ _.
Arguments accumulate_block {Block} _ _ _.
Arguments finalize {Block} _ _.

(** [x is None] for an optional argument. *)
Definition is_None {A} (x : option A) : bool :=
  match x with
  | None => true
  | Some _ => false
  end.

Section Init.

Context {Block Row : Type}.
Variable iter_rows : Block → result (list Row).

(** The call [accumulate_row(a, r)]; calling [None] raises [TypeError]. *)
Definition call (accumulate_row : option (Value → Row → result Value))
    (a : Value) (r : Row) : result Value :=
  match accumulate_row with
  | Some f => f a r
  | None => Raise TypeError
  end.

(** The loop [for r in rows: a = accumulate_row(a, r)]. *)
Fixpoint accumulate_rows
    (accumulate_row : option (Value → Row → result Value))
    (a : Value) (rows : list Row) : result Value :=
  match rows with
  | [] => OK a
  | r :: rows' =>
      a' ← call accumulate_row a r;
      accumulate_rows accumulate_row a' rows'
  end.

Definition __init__ (init : Value → result Value)
    (merge : Value → Value → result Value) (name : Value)
    (accumulate_row : option (Value → Row → result Value))
    (accumulate_block : option (Value → Block → result Value))
    (finalize : option (Value → result Value)) : result (t Block) :=
  if (is_None accumulate_row && is_None accumulate_block)
     || (negb (is_None accumulate_row) && negb (is_None accumulate_block))
  then Raise ValueError
  else
    let accumulate_block :=
      match accumulate_block with
      | None =>
          fun a block =>
            rows ← iter_rows block;
            accumulate_rows accumulate_row a rows
      | Some accumulate_block => accumulate_block
      end in
    match name with
    | VStr name =>
        let finalize :=
          match finalize with
          | None => fun a => OK a
          | Some finalize => finalize
          end in
        OK {| name := name;
              init := init;
              merge := merge;
              accumulate_block := accumulate_block;
              finalize := finalize |}
    | _ => Raise TypeError
    end.

End Init.

End AggregateFn.

(** * Properties *)

Lemma bind_OK {A B} (a : A) (k : A → result B) : (OK a ≫= k) = k a.
Proof. reflexivity. Qed.

Lemma bind_assoc {A B C} (m : result A) (k : A → result B) (h : B → result C) :
  ((m ≫= k) ≫= h) = (m ≫= fun a => k a ≫= h).
Proof. destruct m; reflexivity. Qed.

Lemma is_null_true (v : Value) : is_null v = true ↔ v = VNone.
Proof.
  split; [|intros ->; reflexivity].
  destruct v as [[]| |]; simpl; congruence.
Qed.

(** ** The null-safety wrappers *)

(** C2: under [ignore_nulls = True] the safe zero factory returns null, and
    null is a left and a right identity of the safe combine, whatever the
    raw zero factory, the raw combine and the accumulator [a] are. *)
Theorem safe_combine_identity (zero_factory : unit → Value)
    (raw : Value → Value → result Value) (key a : Value) :
  _null_safe_zero_factory zero_factory true key = VNone ∧
  _null_safe_combine raw true (_null_safe_zero_factory zero_factory true key) a
    = OK a ∧
  _null_safe_combine raw true a (_null_safe_zero_factory zero_factory true key)
    = OK a.
Proof.
  split; [reflexivity|]. split; [reflexivity|].
  simpl. destruct (is_null a) eqn:Ha; [|reflexivity].
  apply is_null_true in Ha. by subst.
Qed.

Lemma safe_combine_null_new raw cur new :
  is_null new = true → _null_safe_combine raw false cur new = OK new.
Proof. intros H. simpl. by rewrite H. Qed.

Lemma safe_combine_null_cur raw cur new :
  is_null new = false → is_null cur = true →
  _null_safe_combine raw false cur new = OK cur.
Proof. intros Hn Hc. simpl. by rewrite Hn, Hc. Qed.

Lemma merge_all_poisoned raw acc xs :
  is_null acc = true →
  ∃ r, merge_all (_null_safe_combine raw false) acc xs = OK r ∧
       is_null r = true.
Proof.
  revert acc. induction xs as [|x xs IH]; intros acc Hacc; simpl.
  - eauto.
  - destruct (is_null x) eqn:Hx; simpl.
    + apply IH. exact Hx.
    + rewrite Hacc. simpl. apply IH. exact Hacc.
Qed.

(** C3: under [ignore_nulls = False] a null operand makes the safe combine
    return a null: the new operand if it is null (it is tested first), the
    current one otherwise.  From then on the accumulator stays null through
    every further combine, on either side, and the safe finalize returns
    it unchanged. *)
Theorem safe_combine_poison (raw : Value → Value → result Value)
    (raw_finalize : Value → result Value) (cur new : Value) (later : list Value)
    (Hnull : is_null cur = true ∨ is_null new = true) :
  (is_null new = true → _null_safe_combine raw false cur new = OK new) ∧
  (is_null new = false → _null_safe_combine raw false cur new = OK cur) ∧
  ∃ r, _null_safe_combine raw false cur new = OK r ∧ is_null r = true ∧
       (∀ x, ∃ r', _null_safe_combine raw false r x = OK r' ∧
                   is_null r' = true) ∧
       (∀ x, ∃ r', _null_safe_combine raw false x r = OK r' ∧
                   is_null r' = true) ∧
       (∃ r', merge_all (_null_safe_combine raw false) r later = OK r' ∧
              is_null r' = true ∧ _null_safe_finalize raw_finalize r' = OK r') ∧
       _null_safe_finalize raw_finalize r = OK r.
Proof.
  assert (Hpois : ∀ r, is_null r = true →
            (∀ x, ∃ r', _null_safe_combine raw false r x = OK r' ∧
                        is_null r' = true) ∧
            (∀ x, ∃ r', _null_safe_combine raw false x r = OK r' ∧
                        is_null r' = true) ∧
            (∃ r', merge_all (_null_safe_combine raw false) r later = OK r' ∧
                  is_null r' = true ∧ _null_safe_finalize raw_finalize r' = OK r') ∧
            _null_safe_finalize raw_finalize r = OK r).
  { intros r Hr. repeat split.
    - intros x. destruct (is_null x) eqn:Hx.
      + exists x. split; [by apply safe_combine_null_new|done].
      + exists r. split; [by apply safe_combine_null_cur|done].
    - intros x. exists r. split; [by apply safe_combine_null_new|done].
    - destruct (merge_all_poisoned raw r later Hr) as (r' & Hm & Hr').
      exists r'. repeat split; try done.
      unfold _null_safe_finalize. by rewrite Hr'.
    - unfold _null_safe_finalize. by rewrite Hr. }
  split; [apply safe_combine_null_new|].
  destruct (is_null new) eqn:Hn.
  - split; [done|]. exists new.
    split; [by apply safe_combine_null_new|]. split; [done|]. by apply Hpois.
  - destruct Hnull as [Hc|?]; [|done].
    split; [intros _; by apply safe_combine_null_cur|]. exists cur.
    split; [by apply safe_combine_null_cur|]. split; [done|]. by apply Hpois.
Qed.

Lemma safe_combine_poison_witness :
  (is_null VNone = true ∨ is_null (int 3) = true) ∧
  _null_safe_combine Sum_combine false VNone (int 3) = OK VNone.
Proof.
  split; [left; reflexivity|].
  apply (safe_combine_poison Sum_combine default_finalize VNone (int 3) [int 4]
           (or_introl eq_refl)).
  reflexivity.
Defined.

(** ** Construction of the built-in kinds *)

Lemma truthy_alias_or alias canonical :
  canonical ≠ "" →
  ∃ n, alias_or alias canonical = Some n ∧ n ≠ "" ∧
       n = (if truthy alias then default "" alias else canonical).
Proof.
  intros Hc. unfold alias_or. destruct (truthy alias) eqn:Ht.
  - destruct alias as [s|]; [|discriminate]. exists s. simpl in *.
    repeat split. intros ->. discriminate.
  - exists canonical. auto.
Qed.

Lemma base_init_OK math_sqrt k alias canonical zf on ign :
  canonical ≠ "" →
  AggregateFnV2__init__ math_sqrt k (alias_or alias canonical) zf on ign =
  OK {| name := if truthy alias then default "" alias else canonical;
        init := _null_safe_zero_factory zf ign;
        merge := _null_safe_combine (combine k) ign;
        finalize := _null_safe_finalize (_finalize math_sqrt k ign);
        _target_col_name := on;
        _ignore_nulls := ign;
        kind := k |}.
Proof.
  intros Hc. destruct (truthy_alias_or alias canonical Hc) as (n & -> & Hn & ->).
  unfold AggregateFnV2__init__. simpl.
  destruct (String.eqb_spec (if truthy alias then default "" alias else canonical) "")
    as [E|_]; [|reflexivity].
  exfalso. destruct (truthy alias) eqn:Ht; [|contradiction].
  destruct alias as [s|]; [|discriminate]. simpl in *. subst s. discriminate.
Qed.

Lemma canonical_name_nonempty k on : canonical_name k on ≠ "".
Proof. destruct k; discriminate. Qed.

Lemma construct_OK math_sqrt k on ign alias :
  (k = AbsMax → on ≠ None) →
  construct math_sqrt k on ign alias =
  OK (instance_of math_sqrt k on (default (default_ignore_nulls k) ign)
        (if truthy alias then default "" alias else canonical_name k on)).
Proof.
  intros Hon. pose proof (canonical_name_nonempty k on) as Hc.
  destruct k; simpl in *;
    try (apply (base_init_OK math_sqrt); exact Hc).
  unfold AbsMax__init__. destruct on as [c|]; [|by destruct Hon].
  apply (base_init_OK math_sqrt); exact Hc.
Qed.

(** C8: a built-in kind constructed with [ignore_nulls = True] starts every
    group from null and finalizes a group that received no partial
    accumulator to null, whatever the kind (for [Count] and [Sum] too, whose
    raw zero is 0). *)
Theorem empty_group_finalizes_to_null (math_sqrt : num → result num)
    (k : Kind) (on alias : option string) (key : Value)
    (Hon : k = AbsMax → on ≠ None) :
  ∃ d, construct math_sqrt k on (Some true) alias = OK d ∧
       init d key = VNone ∧
       merge_all (merge d) (init d key) [] = OK VNone ∧
       finalize d VNone = OK VNone ∧
       (acc ← merge_all (merge d) (init d key) []; finalize d acc) = OK VNone.
Proof.
  eexists. split; [by apply construct_OK|]. by repeat split.
Qed.

Lemma empty_group_finalizes_to_null_witness :
  (Count = AbsMax → @None string ≠ None) ∧
  ∃ d, construct sqrt_unused Count None (Some true) None = OK d ∧
       init d (VStr "group") = VNone ∧
       finalize d VNone = OK VNone.
Proof.
  split; [discriminate|].
  destruct (empty_group_finalizes_to_null sqrt_unused Count None None
              (VStr "group") ltac:(discriminate)) as (d & H1 & H2 & _ & H3 & _).
  exists d. auto.
Defined.

(** C10: a constructor called without [ignore_nulls] takes its default,
    which is [False] for [Count] and [True] for [Sum], [Min], [Max], [Mean],
    [Std], [AbsMax], [Quantile] and [Unique]. *)
Theorem default_null_policy (math_sqrt : num → result num)
    (k : Kind) (on alias : option string)
    (Hon : k = AbsMax → on ≠ None) :
  ∃ d, construct math_sqrt k on None alias = OK d ∧
       _ignore_nulls d = match k with
                         | Count => false
                         | Sum | Min | Max | Mean | Std _ | AbsMax
                         | Quantile _ | Unique => true
                         end.
Proof.
  eexists. split; [by apply construct_OK|]. by destruct k.
Qed.

Lemma default_null_policy_witness :
  (AbsMax = AbsMax → Some "x" ≠ None) ∧
  ∃ d, construct sqrt_unused AbsMax (Some "x") None None = OK d ∧
       _ignore_nulls d = true.
Proof.
  split; [discriminate|].
  apply (default_null_policy sqrt_unused AbsMax (Some "x") None).
  discriminate.
Defined.

(** C7, as the code has it: the base constructor [AggregateFnV2.__init__]
    raises [ValueError] when the name it is given is missing or empty, and
    [AbsMax] raises [ValueError] when it is constructed without a target
    column, both before an instance exists.  A built-in kind never hands an
    empty name to the base constructor: with a missing or empty alias it
    falls back to its canonical name and the construction succeeds. *)
Theorem construction_errors (math_sqrt : num → result num) :
  (∀ k name zf on ign,
     truthy name = false →
     AggregateFnV2__init__ math_sqrt k name zf on ign = Raise ValueError) ∧
  (∀ ign alias, AbsMax__init__ math_sqrt None ign alias = Raise ValueError) ∧
  (∀ ign alias, construct math_sqrt AbsMax None ign alias = Raise ValueError) ∧
  (∀ k on ign alias,
     (k = AbsMax → on ≠ None) →
     ∃ d, construct math_sqrt k on ign alias = OK d ∧
          name d ≠ "" ∧
          (truthy alias = false → name d = canonical_name k on) ∧
          (truthy alias = true → Some (name d) = alias)).
Proof.
  repeat split.
  - intros k name zf on ign Hn. unfold AggregateFnV2__init__. by rewrite Hn.
  - intros k on ign alias Hon. eexists. split; [by apply construct_OK|].
    simpl. repeat split.
    + destruct (truthy alias) eqn:Ht.
      * destruct alias as [s|]; [|discriminate]. simpl in *.
        intros ->. discriminate.
      * apply canonical_name_nonempty.
    + by intros ->.
    + intros Ht. rewrite Ht. destruct alias; [reflexivity|discriminate].
Qed.

Lemma construction_errors_witness :
  truthy (Some "") = false ∧
  AggregateFnV2__init__ sqrt_unused Sum (Some "") (zero_factory Sum) None true
    = Raise ValueError.
Proof.
  split; [reflexivity|].
  apply (construction_errors sqrt_unused). reflexivity.
Defined.

(** C7, as stated, fails: [Count(alias_name="")] has an empty display name
    and is constructed without an error, under the name ["count()"]. *)
Lemma empty_alias_is_not_an_error :
  ∃ d, Count__init__ sqrt_unused None None (Some "") = OK d ∧
       name d = "count()".
Proof. eexists. split; reflexivity. Qed.

(** ** [Quantile.combine] *)

Lemma keeps_spec (x : Value) : keeps x = negb (null_or_empty_string x).
Proof.
  destruct x as [[|n|s]|l|g]; try reflexivity.
  unfold keeps. simpl. destruct (String.eqb_spec s "") as [->|Hs]; simpl.
  - reflexivity.
  - symmetry. by apply negb_true_iff, bool_decide_eq_false.
Qed.

(** C6: the merge rules of [Quantile.combine], for operands that are lists
    or bare scalars: two lists are concatenated; a scalar is appended to
    the list it is merged with unless it is null or the empty string; two
    scalars give the list of those of them that are neither null nor the
    empty string, the current one first, of length 0 to 2. *)
Theorem Quantile_combine_rules :
  (∀ a b, Quantile_combine (VList a) (VList b) = OK (VList (a ++ b))) ∧
  (∀ a x, is_list x = false →
     Quantile_combine (VList a) x =
       OK (VList (if null_or_empty_string x then a else a ++ [x])) ∧
     Quantile_combine x (VList a) =
       OK (VList (if null_or_empty_string x then a else a ++ [x]))) ∧
  (∀ x y, is_list x = false → is_list y = false →
     Quantile_combine x y =
       OK (VList (List.filter (λ v, negb (null_or_empty_string v)) [x; y])) ∧
     ∃ ls, Quantile_combine x y = OK (VList ls) ∧ (length ls ≤ 2)%nat).
Proof.
  split; [reflexivity|]. split.
  - intros a x Hx.
    destruct x as [[|n|[|c s]]|l|g]; try discriminate; split; reflexivity.
  - intros x y Hx Hy.
    destruct x as [[|nx|[|cx sx]]|lx|gx]; try discriminate;
      destruct y as [[|ny|[|cy sy]]|ly|gy]; try discriminate;
      (split; [reflexivity|eexists; split; [reflexivity|simpl; lia]]).
Qed.

Lemma Quantile_combine_rules_witness :
  is_list (int 7) = false ∧ is_list (VStr "") = false ∧
  Quantile_combine (VList [int 1]) (int 7) = OK (VList [int 1; int 7]) ∧
  Quantile_combine (VStr "") (VList [int 1]) = OK (VList [int 1]) ∧
  Quantile_combine (VStr "") (int 7) = OK (VList [int 7]).
Proof.
  destruct Quantile_combine_rules as (_ & Hls & Hss).
  split; [reflexivity|]. split; [reflexivity|].
  split; [exact (proj1 (Hls [int 1] (int 7) eq_refl))|].
  split; [exact (proj2 (Hls [int 1] (VStr "") eq_refl))|].
  exact (proj1 (Hss (VStr "") (int 7) eq_refl eq_refl)).
Defined.

(** ** [Std.combine] *)

Lemma Std_combine_num (M2_a mean_a count_a M2_b mean_b count_b : num) :
  Std_combine (triple M2_a mean_a count_a) (triple M2_b mean_b count_b) =
  (mean ← num_div (num_add (num_mul mean_a count_a) (num_mul mean_b count_b))
                  (num_add count_a count_b);
   corr ← num_div (num_mul (num_mul (num_mul (num_sub mean_b mean_a)
                                             (num_sub mean_b mean_a))
                                    count_a) count_b)
                  (num_add count_a count_b);
   OK (triple (num_add (num_add M2_a M2_b) corr) mean
              (num_add count_a count_b))).
Proof.
  unfold Std_combine, triple. simpl.
  destruct (num_div (num_add _ _) _) as [mean|e]; simpl; [|reflexivity].
  destruct (num_div (num_mul _ _) _) as [corr|e]; reflexivity.
Qed.

Lemma num_div_Fin (x y : Qc) :
  y ≠ 0%Qc → num_div (Fin x) (Fin y) = OK (Fin (x / y)%Qc).
Proof.
  intros Hy. unfold num_div, Qc_is_zero.
  by rewrite bool_decide_eq_false_2.
Qed.

(** C9: the raw combine of [Std] divides by [count_a + count_b]; when that
    sum is 0, as when both counts are 0, it raises [ZeroDivisionError].  Two
    zero-value accumulators [[0, 0, 0]] are not null, so under
    [ignore_nulls = False] the safe combine hands them to the raw combine
    and the merge of an instance raises as well. *)
Theorem Std_combine_zero_count (math_sqrt : num → result num)
    (M2_a mean_a count_a M2_b mean_b count_b : num) (ddof : Z)
    (on alias : option string) (key : Value)
    (Hcount : num_add count_a count_b = Fin 0%Qc) :
  Std_combine (triple M2_a mean_a count_a) (triple M2_b mean_b count_b)
    = Raise ZeroDivisionError ∧
  Std_combine (triple M2_a mean_a (Fin 0%Qc)) (triple M2_b mean_b (Fin 0%Qc))
    = Raise ZeroDivisionError ∧
  zero_factory (Std ddof) () = VList [int 0; int 0; int 0] ∧
  is_null (zero_factory (Std ddof) ()) = false ∧
  _null_safe_combine Std_combine false
    (zero_factory (Std ddof) ()) (zero_factory (Std ddof) ())
    = Raise ZeroDivisionError ∧
  ∃ d, construct math_sqrt (Std ddof) on (Some false) alias = OK d ∧
       merge d (init d key) (init d key) = Raise ZeroDivisionError.
Proof.
  split; [|split; [|split; [|split; [|split]]]]; try reflexivity.
  - rewrite Std_combine_num, Hcount. reflexivity.
  - eexists. split; [by apply construct_OK|]. reflexivity.
Qed.

Lemma Std_combine_zero_count_witness :
  num_add (Fin 0%Qc) (Fin 0%Qc) = Fin 0%Qc ∧
  Std_combine (VList [int 0; int 0; int 0]) (VList [int 0; int 0; int 0])
    = Raise ZeroDivisionError.
Proof.
  split; [reflexivity|].
  apply (Std_combine_zero_count sqrt_unused (Fin 0%Qc) (Fin 0%Qc) (Fin 0%Qc)
           (Fin 0%Qc) (Fin 0%Qc) (Fin 0%Qc) 1 None None VNone).
  reflexivity.
Defined.

Lemma Qc_pow2 (x : Qc) : (x ^ 2 = x * x)%Qc.
Proof. simpl. ring. Qed.

(** In exact arithmetic the weighted-average form of the merged mean and
    the incremental form [mean_a + delta * count_b / count] are the same
    number; they differ only in how a floating-point evaluation rounds. *)
Lemma mean_forms_agree (mean_a count_a mean_b count_b : Qc) :
  (count_a + count_b)%Qc ≠ 0%Qc →
  ((mean_a * count_a + mean_b * count_b) / (count_a + count_b) =
   mean_a + (mean_b - mean_a) * count_b / (count_a + count_b))%Qc.
Proof. intros H. field. exact H. Qed.

Lemma Std_combine_Fin (M2_a mean_a count_a M2_b mean_b count_b : Qc)
    (Hcount : (count_a + count_b)%Qc ≠ 0%Qc) :
  Std_combine (triple (Fin M2_a) (Fin mean_a) (Fin count_a))
              (triple (Fin M2_b) (Fin mean_b) (Fin count_b)) =
  OK (triple
        (Fin (M2_a + M2_b
              + (mean_b - mean_a) ^ 2 * count_a * count_b
                / (count_a + count_b))%Qc)
        (Fin ((mean_a * count_a + mean_b * count_b)
              / (count_a + count_b))%Qc)
        (Fin (count_a + count_b)%Qc)).
Proof.
  rewrite Std_combine_num. simpl num_add. simpl num_mul. simpl num_sub.
  rewrite !num_div_Fin by exact Hcount.
  rewrite Qc_pow2. reflexivity.
Qed.



(** ** [Quantile._finalize] *)

Lemma sort_lt_fin (x y : Qc) : sort_lt (finite x) (finite y) = OK (Qc_ltb x y).
Proof. reflexivity. Qed.

Lemma sort_insert_fin (x : Qc) (l : list Qc) :
  StronglySorted Qcle l →
  ∃ l', sort_insert (finite x) (finite <$> l) = OK (finite <$> l') ∧
        StronglySorted Qcle l' ∧ Permutation l' (x :: l).
Proof.
  induction l as [|y l IH]; intros Hs.
  - exists [x]. repeat split; [|done]. repeat constructor.
  - rewrite fmap_cons. cbn [sort_insert]. rewrite sort_lt_fin, bind_OK.
    unfold Qc_ltb. destruct (decide (y < x)%Qc) as [Hlt|Hge].
    + rewrite bool_decide_eq_true_2 by done.
      apply StronglySorted_inv in Hs as [Hs Hy].
      destruct (IH Hs) as (l' & -> & Hs' & Hp). rewrite bind_OK.
      exists (y :: l'). repeat split.
      * constructor; [done|].
        rewrite Hp. constructor; [by apply Qclt_le_weak|done].
      * rewrite Hp. apply perm_swap.
    + rewrite bool_decide_eq_false_2 by done.
      exists (x :: y :: l). repeat split; [|done].
      apply Qcnot_lt_le in Hge.
      constructor; [done|]. constructor; [done|].
      apply StronglySorted_inv in Hs as [_ Hy].
      eapply Forall_impl; [exact Hy|].
      intros z Hz. by apply Qcle_trans with y.
Qed.

Lemma py_sorted_fin (l : list Qc) :
  ∃ l', py_sorted (finite <$> l) = OK (finite <$> l') ∧
        StronglySorted Qcle l' ∧ Permutation l' l.
Proof.
  induction l as [|x l (l0 & IH & Hs & Hp)].
  - exists []. repeat split; [constructor|done].
  - rewrite fmap_cons. cbn [py_sorted]. rewrite IH, bind_OK.
    destruct (sort_insert_fin x l0 Hs) as (l' & -> & Hs' & Hp').
    exists l'. repeat split; [done|]. by rewrite Hp', Hp.
Qed.

(** [sorted] returns the ascending arrangement of a list of finite
    numbers. *)
Lemma py_sorted_unique (l s : list Qc) :
  Permutation s l → Sorted Qcle s →
  py_sorted (finite <$> l) = OK (finite <$> s).
Proof.
  intros Hp Hs. destruct (py_sorted_fin l) as (l' & -> & Hs' & Hp').
  f_equal. f_equal. apply (Sorted_unique Qcle); [|done|by rewrite Hp, Hp'].
  by apply StronglySorted_Sorted.
Qed.

Lemma list_getitem_fin (s : list Qc) (i : Z) :
  0 ≤ i < Z.of_nat (length s) →
  list_getitem (finite <$> s) i = OK (finite (nth (Z.to_nat i) s 0%Qc)).
Proof.
  intros [Hi Hn]. unfold list_getitem. rewrite length_fmap.
  assert (E1 : (i <? 0) = false) by (apply Z.ltb_ge; lia).
  assert (E2 : (Z.of_nat (length s) <=? i) = false) by (apply Z.leb_gt; lia).
  rewrite !E1, E2. simpl.
  rewrite list_lookup_fmap, nth_lookup.
  destruct (s !! Z.to_nat i) as [x|] eqn:Hx; [reflexivity|].
  apply lookup_ge_None in Hx. lia.
Qed.

Lemma Zc_this (z : Z) : (Zc z : Q) == inject_Z z.
Proof. unfold Zc. simpl. apply Qred_correct. Qed.

Lemma Zc_nonneg (z : Z) : 0 ≤ z → (0 ≤ Zc z)%Qc.
Proof.
  intros Hz. unfold Qcle. rewrite Zc_this.
  unfold Qle. simpl. lia.
Qed.

(** For a rank [q] between 0 and 1 the fractional index [(n - 1) * q] and
    its floor and ceiling stay within the list. *)
Lemma rank_bounds (n : Z) (q : Qc) :
  1 ≤ n → (0 ≤ q)%Qc → (q ≤ 1)%Qc →
  0 ≤ Qfloor (Zc (n - 1) * q)%Qc ∧
  Qfloor (Zc (n - 1) * q)%Qc ≤ Qceiling (Zc (n - 1) * q)%Qc ∧
  Qceiling (Zc (n - 1) * q)%Qc < n.
Proof.
  intros Hn Hq0 Hq1.
  assert (H0 : (0 ≤ Zc (n - 1))%Qc) by (apply Zc_nonneg; lia).
  assert (Hk0 : (0 ≤ Zc (n - 1) * q)%Qc).
  { rewrite <- (Qcmult_0_l q). by apply Qcmult_le_compat_r. }
  assert (Hk1 : (Zc (n - 1) * q ≤ Zc (n - 1))%Qc).
  { rewrite <- (Qcmult_1_l (Zc (n - 1))) at 2. rewrite (Qcmult_comm _ q).
    by apply Qcmult_le_compat_r. }
  split; [|split].
  - change 0 with (Qfloor 0). by apply Qfloor_resp_le.
  - rewrite Zle_Qle. apply Qle_floor_ceiling.
  - apply Qceiling_resp_le in Hk1.
    rewrite (Qceiling_comp _ _ (Zc_this (n - 1))), Qceiling_Z in Hk1. lia.
Qed.

(** [int(k)] of a number whose floor and ceiling coincide is that integer. *)
Lemma py_int_integral (k : Qc) :
  Qfloor k = Qceiling k → py_int (Fin k) = OK (Qfloor k).
Proof.
  destruct k as [[n d] Hc]. unfold Qceiling, Qfloor, Qopp. simpl.
  intros H. f_equal.
  assert (Hd : Z.pos d ≠ 0) by lia.
  destruct (Z.eq_dec (n mod Z.pos d) 0) as [Hm|Hm].
  - apply Z.div_exact in Hm; [|done].
    rewrite Hm at 1. rewrite (Z.mul_comm (Z.pos d)).
    by rewrite Z.quot_mul.
  - rewrite Z.div_opp_l_nz in H by done. lia.
Qed.

Lemma Quantile_rank_sorted (q : Qc) (l s : list Qc) :
  l ≠ [] → Permutation s l → Sorted Qcle s → (0 ≤ q)%Qc → (q ≤ 1)%Qc →
  Quantile_rank (Fin q) (finite <$> l) = OK (finite (quantile_of_sorted q s)).
Proof.
  intros Hl Hp Hs Hq0 Hq1.
  destruct l as [|x l]; [done|]. unfold Quantile_rank.
  change (finite <$> x :: l) with (finite x :: (finite <$> l)). cbv iota.
  change (finite x :: (finite <$> l)) with (finite <$> x :: l).
  rewrite (py_sorted_unique _ s Hp Hs). rewrite bind_OK.
  rewrite length_fmap. unfold quantile_of_sorted.
  assert (Hn : 1 ≤ Z.of_nat (length s)).
  { rewrite (Permutation_length Hp). simpl. lia. }
  destruct (rank_bounds _ q Hn Hq0 Hq1) as (Hf & Hfc & Hc).
  change (num_mul (Fin ?a) (Fin q)) with (Fin (a * q)%Qc).
  fold (Zc (Z.of_nat (length s) - 1)).
  set (k := (Zc (Z.of_nat (length s) - 1) * q)%Qc) in *.
  change (math_floor (Fin k)) with (OK (Qfloor k)).
  change (math_ceil (Fin k)) with (OK (Qceiling k)). rewrite !bind_OK.
  destruct (decide (Qfloor k = Qceiling k)) as [E|E].
  - rewrite (proj2 (Z.eqb_eq _ _) E).
    rewrite (py_int_integral k E), bind_OK.
    apply list_getitem_fin. lia.
  - rewrite (proj2 (Z.eqb_neq _ _) E).
    rewrite !list_getitem_fin by lia. reflexivity.
Qed.

Lemma filter_non_null (acc : list Value) :
  Forall column_value acc →
  List.filter (λ v, negb (is_null v)) acc = finite <$> numbers acc.
Proof.
  induction 1 as [|v acc [->|[x ->]] _ IH]; simpl; [done|exact IH|].
  f_equal. exact IH.
Qed.

Lemma no_null_numbers (acc : list Value) :
  Forall column_value acc → List.find is_null acc = None →
  acc = finite <$> numbers acc.
Proof.
  induction 1 as [|v acc [->|[x ->]] _ IH]; simpl; [done|done|].
  intros Hf. f_equal. exact (IH Hf).
Qed.

(** The list [nulls] of [Quantile._finalize] starts with the first null
    entry of the accumulator, if there is one. *)
Lemma first_null (acc : list Value) :
  match List.find is_null acc with
  | Some v => is_null v = true ∧ ∃ rest, List.filter is_null acc = v :: rest
  | None => List.filter is_null acc = []
  end.
Proof.
  induction acc as [|v acc IH]; simpl; [done|].
  destruct (is_null v) eqn:Hv; [eauto|exact IH].
Qed.

Lemma Quantile_finalize_sorted (ignore_nulls : bool) (q : Qc)
    (acc : list Value) (sorted : list Qc)
    (Hacc : Forall column_value acc)
    (Hq : (0 ≤ q)%Qc ∧ (q ≤ 1)%Qc)
    (Hperm : Permutation sorted (numbers acc))
    (Hsorted : Sorted Qcle sorted) :
  Quantile_finalize ignore_nulls (Fin q) (VList acc) =
  match (if ignore_nulls then None else List.find is_null acc) with
  | Some null => OK null
  | None =>
      match sorted with
      | [] => OK VNone
      | _ :: _ => OK (finite (quantile_of_sorted q sorted))
      end
  end.
Proof.
  destruct Hq as [Hq0 Hq1].
  assert (Hrank : Quantile_rank (Fin q) (finite <$> numbers acc) =
                  match sorted with
                  | [] => OK VNone
                  | _ :: _ => OK (finite (quantile_of_sorted q sorted))
                  end).
  { destruct sorted as [|y sorted'] eqn:Es.
    - apply Permutation_nil in Hperm. by rewrite Hperm.
    - rewrite <- Es in *. apply Quantile_rank_sorted; try done.
      intros Hn. rewrite Hn in Hperm. apply Permutation_sym in Hperm.
      apply Permutation_nil in Hperm. congruence. }
  unfold Quantile_finalize. simpl py_iter. rewrite bind_OK.
  destruct ignore_nulls.
  - by rewrite filter_non_null.
  - pose proof (first_null acc) as Hnull.
    destruct (List.find is_null acc) as [v|] eqn:Hfind.
    + destruct Hnull as (_ & rest & ->). reflexivity.
    + rewrite Hnull. simpl.
      by rewrite (no_null_numbers acc Hacc Hfind) at 1.
Qed.



(** ** The algebra of [combine] *)

Ltac case_ltb :=
  repeat first
    [ progress (cbn [num_ltb]; unfold Qc_ltb)
    | match goal with
      | |- context [bool_decide (?a < ?b)%Qc] =>
          is_var a; is_var b;
          let H := fresh "H" in
          destruct (decide (a < b)%Qc) as [H|H];
          [rewrite (bool_decide_eq_true_2 _ H)
          |rewrite (bool_decide_eq_false_2 _ H)]
      end ].

Ltac qc_order :=
  case_ltb; try reflexivity;
  unfold Qclt, Qcle in *;
  first [lra | f_equal; apply Qc_is_canon; lra | exfalso; lra].

Lemma num_min_comm (x y : num) :
  x ≠ NaN → y ≠ NaN → num_min x y = num_min y x.
Proof.
  intros Hx Hy. unfold num_min.
  destruct x as [a| | |], y as [b| | |]; try done; simpl; qc_order.
Qed.

Lemma num_min_assoc (x y z : num) :
  x ≠ NaN → y ≠ NaN → z ≠ NaN →
  num_min (num_min x y) z = num_min x (num_min y z).
Proof.
  intros Hx Hy Hz. unfold num_min.
  destruct x as [a| | |], y as [b| | |], z as [c| | |]; try done; simpl;
    qc_order.
Qed.

Lemma num_max_comm (x y : num) :
  x ≠ NaN → y ≠ NaN → num_max x y = num_max y x.
Proof.
  intros Hx Hy. unfold num_max.
  destruct x as [a| | |], y as [b| | |]; try done; simpl; qc_order.
Qed.

Lemma num_max_assoc (x y z : num) :
  x ≠ NaN → y ≠ NaN → z ≠ NaN →
  num_max (num_max x y) z = num_max x (num_max y z).
Proof.
  intros Hx Hy Hz. unfold num_max.
  destruct x as [a| | |], y as [b| | |], z as [c| | |]; try done; simpl;
    qc_order.
Qed.

Lemma num_min_not_nan (x y : num) : x ≠ NaN → y ≠ NaN → num_min x y ≠ NaN.
Proof. unfold num_min. by destruct (num_ltb y x). Qed.

Lemma num_max_not_nan (x y : num) : x ≠ NaN → y ≠ NaN → num_max x y ≠ NaN.
Proof. unfold num_max. by destruct (num_ltb x y). Qed.

Lemma py_min_num (x y : num) : py_min (VNum x) (VNum y) = OK (VNum (num_min x y)).
Proof. unfold py_min, num_min. simpl. by destruct (num_ltb y x). Qed.

Lemma py_max_num (x y : num) : py_max (VNum x) (VNum y) = OK (VNum (num_max x y)).
Proof. unfold py_max, py_gt, num_max. simpl. by destruct (num_ltb x y). Qed.

Lemma Qc_pos_nonzero (x : Qc) : (0 < x)%Qc → x ≠ 0%Qc.
Proof. intros H ->. by apply (Qclt_not_eq _ _ H). Qed.

(** The merge of [Std] in exact arithmetic is commutative and
    associative. *)
Lemma Std_merge_comm (M2_a mean_a count_a M2_b mean_b count_b : Qc) :
  (count_a + count_b)%Qc ≠ 0%Qc →
  ((M2_a + M2_b + (mean_b - mean_a) ^ 2 * count_a * count_b
                  / (count_a + count_b) =
    M2_b + M2_a + (mean_a - mean_b) ^ 2 * count_b * count_a
                  / (count_b + count_a)) ∧
   ((mean_a * count_a + mean_b * count_b) / (count_a + count_b) =
    (mean_b * count_b + mean_a * count_a) / (count_b + count_a)) ∧
   (count_a + count_b = count_b + count_a))%Qc.
Proof.
  intros H.
  assert (H' : (count_b + count_a)%Qc ≠ 0%Qc) by (by rewrite Qcplus_comm).
  split; [|split]; [rewrite !Qc_pow2; field| field |ring];
    repeat split; assumption.
Qed.

Lemma Std_merge_assoc (M2_a mean_a count_a M2_b mean_b count_b
                       M2_c mean_c count_c : Qc) :
  (0 < count_a)%Qc → (0 < count_b)%Qc → (0 < count_c)%Qc →
  let mean_ab := ((mean_a * count_a + mean_b * count_b)
                  / (count_a + count_b))%Qc in
  let mean_bc := ((mean_b * count_b + mean_c * count_c)
                  / (count_b + count_c))%Qc in
  let M2_ab := (M2_a + M2_b + (mean_b - mean_a) ^ 2 * count_a * count_b
                              / (count_a + count_b))%Qc in
  let M2_bc := (M2_b + M2_c + (mean_c - mean_b) ^ 2 * count_b * count_c
                              / (count_b + count_c))%Qc in
  ((M2_ab + M2_c + (mean_c - mean_ab) ^ 2 * (count_a + count_b) * count_c
                   / (count_a + count_b + count_c) =
    M2_a + M2_bc + (mean_bc - mean_a) ^ 2 * count_a * (count_b + count_c)
                   / (count_a + (count_b + count_c))) ∧
   ((mean_ab * (count_a + count_b) + mean_c * count_c)
    / (count_a + count_b + count_c) =
    (mean_a * count_a + mean_bc * (count_b + count_c))
    / (count_a + (count_b + count_c))) ∧
   (count_a + count_b + count_c = count_a + (count_b + count_c)))%Qc.
Proof.
  intros Ha Hb Hc mean_ab mean_bc M2_ab M2_bc.
  assert (Hab : (count_a + count_b)%Qc ≠ 0%Qc)
    by (apply Qc_pos_nonzero; by apply Qcplus_pos_pos).
  assert (Hbc : (count_b + count_c)%Qc ≠ 0%Qc)
    by (apply Qc_pos_nonzero; by apply Qcplus_pos_pos).
  assert (Habc : (count_a + count_b + count_c)%Qc ≠ 0%Qc)
    by (apply Qc_pos_nonzero; repeat apply Qcplus_pos_pos; done).
  assert (Habc' : (count_a + (count_b + count_c))%Qc ≠ 0%Qc)
    by (apply Qc_pos_nonzero; repeat apply Qcplus_pos_pos; done).
  subst mean_ab mean_bc M2_ab M2_bc.
  split; [|split]; [rewrite !Qc_pow2; field| field |ring];
    repeat split; assumption.
Qed.

Lemma set_of_list_scalars (l : list Scalar) :
  set_of_list (VS <$> l) = OK (list_to_set l).
Proof.
  induction l as [|s l IH]; [reflexivity|].
  rewrite fmap_cons. cbn [set_of_list to_scalar]. by rewrite bind_OK, IH.
Qed.

Lemma to_set_shape (x : Value) : shape Unique x → ∃ g, _to_set x = OK g.
Proof.
  intros [[g ->]|[l ->]]; [by exists g|].
  exists (list_to_set l). apply set_of_list_scalars.
Qed.

(** The raw combine of a kind maps two accumulators of the kind to an
    accumulator of the kind: it raises no exception on them. *)
Lemma combine_closed (k : Kind) (x y : Value) :
  shape k x → shape k y → ∃ r, combine k x y = OK r ∧ shape k r.
Proof.
  destruct k; simpl.
  - intros [a ->] [b ->]. eexists. split; [reflexivity|]. by eexists.
  - intros [a ->] [b ->]. eexists. split; [reflexivity|]. by eexists.
  - intros (a & Ha & ->) (b & Hb & ->). eexists. split; [apply py_min_num|].
    eexists. split; [|reflexivity]. by apply num_min_not_nan.
  - intros (a & Ha & ->) (b & Hb & ->). eexists. split; [apply py_max_num|].
    eexists. split; [|reflexivity]. by apply num_max_not_nan.
  - intros (s1 & c1 & ->) (s2 & c2 & ->). eexists. split; [reflexivity|].
    by do 2 eexists.
  - intros (M2_a & mean_a & count_a & Ha & ->)
           (M2_b & mean_b & count_b & Hb & ->).
    pose proof (Qcplus_pos_pos _ _ Ha Hb) as Hab.
    eexists. split; [apply Std_combine_Fin; by apply Qc_pos_nonzero|].
    do 3 eexists. by split.
  - intros (a & Ha & ->) (b & Hb & ->). eexists. split; [apply py_max_num|].
    eexists. split; [|reflexivity]. by apply num_max_not_nan.
  - intros [a ->] [b ->]. eexists. split; [reflexivity|]. by eexists.
  - intros Hx Hy. destruct (to_set_shape x Hx) as [g Hg].
    destruct (to_set_shape y Hy) as [h Hh].
    unfold Unique_combine. rewrite Hg, Hh. eexists. split; [reflexivity|].
    left. by eexists.
Qed.

Lemma combine_comm (k : Kind) (x y : Value) :
  shape k x → shape k y →
  match k with
  | Quantile _ => same_entries (combine k x y) (combine k y x)
  | _ => combine k x y = combine k y x
  end.
Proof.
  destruct k; simpl.
  - intros [a ->] [b ->]. unfold Count_combine, finite. simpl.
    by rewrite Qcplus_comm.
  - intros [a ->] [b ->]. unfold Sum_combine, finite. simpl.
    by rewrite Qcplus_comm.
  - intros (a & Ha & ->) (b & Hb & ->). unfold Min_combine.
    by rewrite !py_min_num, num_min_comm.
  - intros (a & Ha & ->) (b & Hb & ->). unfold Max_combine.
    by rewrite !py_max_num, num_max_comm.
  - intros (s1 & c1 & ->) (s2 & c2 & ->). unfold Mean_combine, finite. simpl.
    by rewrite (Qcplus_comm s1), (Qcplus_comm c1).
  - intros (M2_a & mean_a & count_a & Ha & ->)
           (M2_b & mean_b & count_b & Hb & ->).
    assert (Hab : (count_a + count_b)%Qc ≠ 0%Qc)
      by (apply Qc_pos_nonzero; by apply Qcplus_pos_pos).
    assert (Hba : (count_b + count_a)%Qc ≠ 0%Qc)
      by (apply Qc_pos_nonzero; by apply Qcplus_pos_pos).
    rewrite !Std_combine_Fin by done.
    destruct (Std_merge_comm M2_a mean_a count_a M2_b mean_b count_b Hab)
      as (-> & -> & ->). reflexivity.
  - intros (a & Ha & ->) (b & Hb & ->). unfold AbsMax_combine.
    by rewrite !py_max_num, num_max_comm.
  - intros [a ->] [b ->]. simpl. apply Permutation_app_comm.
  - intros Hx Hy. destruct (to_set_shape x Hx) as [g Hg].
    destruct (to_set_shape y Hy) as [h Hh].
    unfold Unique_combine. rewrite Hg, Hh. simpl.
    by rewrite (comm_L (∪) g h).
Qed.

Lemma combine_assoc (k : Kind) (x y z : Value) :
  shape k x → shape k y → shape k z →
  (r ← combine k x y; combine k r z) = (r ← combine k y z; combine k x r).
Proof.
  destruct k; simpl.
  - intros [a ->] [b ->] [c ->]. unfold Count_combine, finite. simpl.
    by rewrite Qcplus_assoc.
  - intros [a ->] [b ->] [c ->]. unfold Sum_combine, finite. simpl.
    by rewrite Qcplus_assoc.
  - intros (a & Ha & ->) (b & Hb & ->) (c & Hc & ->). unfold Min_combine.
    by rewrite !py_min_num, !bind_OK, !py_min_num, num_min_assoc.
  - intros (a & Ha & ->) (b & Hb & ->) (c & Hc & ->). unfold Max_combine.
    by rewrite !py_max_num, !bind_OK, !py_max_num, num_max_assoc.
  - intros (s1 & c1 & ->) (s2 & c2 & ->) (s3 & c3 & ->).
    unfold Mean_combine, finite. simpl.
    by rewrite (Qcplus_assoc s1), (Qcplus_assoc c1).
  - intros (M2_a & mean_a & count_a & Ha & ->)
           (M2_b & mean_b & count_b & Hb & ->)
           (M2_c & mean_c & count_c & Hc & ->).
    pose proof (Qcplus_pos_pos _ _ Ha Hb) as Hab.
    pose proof (Qcplus_pos_pos _ _ Hb Hc) as Hbc.
    rewrite !Std_combine_Fin by (by apply Qc_pos_nonzero).
    rewrite !bind_OK.
    rewrite !Std_combine_Fin
      by (apply Qc_pos_nonzero; by apply Qcplus_pos_pos).
    destruct (Std_merge_assoc M2_a mean_a count_a M2_b mean_b count_b
                M2_c mean_c count_c Ha Hb Hc) as (E1 & E2 & E3).
    cbv zeta in E1, E2. by rewrite E1, E2, E3.
  - intros (a & Ha & ->) (b & Hb & ->) (c & Hc & ->). unfold AbsMax_combine.
    by rewrite !py_max_num, !bind_OK, !py_max_num, num_max_assoc.
  - intros [a ->] [b ->] [c ->]. simpl. by rewrite app_assoc.
  - intros Hx Hy Hz. destruct (to_set_shape x Hx) as [g Hg].
    destruct (to_set_shape y Hy) as [h Hh].
    destruct (to_set_shape z Hz) as [i Hi].
    unfold Unique_combine. rewrite Hg, Hh, Hi. simpl.
    by rewrite (assoc_L (∪) g h i).
Qed.

Lemma shape_not_null (k : Kind) (x : Value) : shape k x → is_null x = false.
Proof.
  destruct k; simpl.
  - by intros [? ->].
  - by intros [? ->].
  - by intros (? & _ & ->).
  - by intros (? & _ & ->).
  - by intros (? & ? & ->).
  - by intros (? & ? & ? & _ & ->).
  - by intros (? & _ & ->).
  - by intros [? ->].
  - by intros [[? ->]|[? ->]].
Qed.

Lemma bind_ret {A} (m : result A) : (m ≫= OK) = m.
Proof. by destruct m. Qed.

(** On accumulators the safe combine is the raw combine, with null as a
    unit ([ignore_nulls = True]) or as a zero ([ignore_nulls = False]). *)
Lemma safe_combine_shape k ign x y :
  shape k x → shape k y →
  _null_safe_combine (combine k) ign x y = combine k x y.
Proof.
  intros Hx%shape_not_null Hy%shape_not_null.
  destruct ign; simpl; by rewrite Hx, Hy.
Qed.

Lemma safe_combine_None_l k ign y :
  accumulator k y →
  _null_safe_combine (combine k) ign VNone y = OK (if ign then y else VNone).
Proof.
  intros [->|Hy%shape_not_null]; destruct ign; simpl; try done.
  by rewrite Hy.
Qed.

Lemma safe_combine_None_r k ign x :
  accumulator k x →
  _null_safe_combine (combine k) ign x VNone = OK (if ign then x else VNone).
Proof.
  intros [->|Hx%shape_not_null]; destruct ign; simpl; try done.
  by rewrite Hx.
Qed.

Lemma safe_combine_closed k ign x y :
  accumulator k x → accumulator k y →
  ∃ r, _null_safe_combine (combine k) ign x y = OK r ∧ accumulator k r.
Proof.
  intros [->|Hx] Hy.
  - rewrite safe_combine_None_l by done. eexists. split; [done|].
    destruct ign; [done|by left].
  - destruct Hy as [->|Hy].
    + rewrite safe_combine_None_r by (by right). eexists. split; [done|].
      destruct ign; [by right|by left].
    + rewrite safe_combine_shape by done.
      destruct (combine_closed k x y Hx Hy) as (r & -> & Hr).
      exists r. split; [done|by right].
Qed.

Lemma same_entries_refl (r : result Value) : same_entries r r.
Proof. destruct r as [[s|l|g]|e]; simpl; done. Qed.

Lemma safe_combine_comm k ign a b :
  accumulator k a → accumulator k b →
  match k with
  | Quantile _ =>
      same_entries (_null_safe_combine (combine k) ign a b)
                   (_null_safe_combine (combine k) ign b a)
  | _ => _null_safe_combine (combine k) ign a b
         = _null_safe_combine (combine k) ign b a
  end.
Proof.
  intros Ha Hb.
  assert (Hnull : ∀ x, accumulator k x →
            _null_safe_combine (combine k) ign VNone x
            = _null_safe_combine (combine k) ign x VNone).
  { intros x Hx. by rewrite safe_combine_None_l, safe_combine_None_r. }
  destruct Ha as [->|Ha].
  { rewrite (Hnull b Hb). destruct k; try done; apply same_entries_refl. }
  destruct Hb as [->|Hb].
  { rewrite (Hnull a) by (by right).
    destruct k; try done; apply same_entries_refl. }
  rewrite !safe_combine_shape by done. by apply combine_comm.
Qed.

Lemma safe_combine_assoc k ign a b c :
  accumulator k a → accumulator k b → accumulator k c →
  (ab ← _null_safe_combine (combine k) ign a b;
   _null_safe_combine (combine k) ign ab c) =
  (bc ← _null_safe_combine (combine k) ign b c;
   _null_safe_combine (combine k) ign a bc).
Proof.
  intros Ha Hb Hc.
  destruct Ha as [->|Ha].
  { rewrite safe_combine_None_l, bind_OK by done.
    destruct (safe_combine_closed k ign b c Hb Hc) as (r & Hr & Hacc).
    rewrite Hr, bind_OK, safe_combine_None_l by done.
    destruct ign; [done|]. by rewrite safe_combine_None_l. }
  destruct Hb as [->|Hb].
  { rewrite safe_combine_None_r, safe_combine_None_l, !bind_OK
      by (done || by right).
    destruct ign; [done|].
    by rewrite safe_combine_None_l, safe_combine_None_r by (done || by right). }
  destruct Hc as [->|Hc].
  { rewrite safe_combine_None_r, bind_OK by (by right).
    destruct (safe_combine_closed k ign a b) as (r & Hr & Hacc);
      [by right|by right|].
    rewrite Hr, bind_OK, safe_combine_None_r by done.
    destruct ign; [done|]. by rewrite safe_combine_None_r by (by right). }
  rewrite !(safe_combine_shape k ign a b), !(safe_combine_shape k ign b c)
    by done.
  destruct (combine_closed k a b Ha Hb) as (ab & Eab & Hab).
  destruct (combine_closed k b c Hb Hc) as (bc & Ebc & Hbc).
  pose proof (combine_assoc k a b c Ha Hb Hc) as Hassoc.
  rewrite Eab, Ebc, !bind_OK in *.
  by rewrite !safe_combine_shape.
Qed.




(** The order of the entries of a [Quantile] accumulator does not reach the
    finalized value: the list is sorted first. *)
Lemma find_is_null (l : list Value) :
  List.find is_null l = if existsb is_null l then Some VNone else None.
Proof.
  induction l as [|v l IH]; [done|]. simpl.
  destruct (is_null v) eqn:Hv; [|exact IH].
  apply is_null_true in Hv. by subst.
Qed.

Lemma existsb_Permutation {A} (f : A → bool) (l1 l2 : list A) :
  Permutation l1 l2 → existsb f l1 = existsb f l2.
Proof.
  induction 1 as [|x l1 l2 _ IH|x y l|l1 l2 l3 _ IH1 _ IH2]; simpl.
  - done.
  - by rewrite IH.
  - by destruct (f x), (f y).
  - by rewrite IH1.
Qed.

Lemma numbers_Permutation (l1 l2 : list Value) :
  Permutation l1 l2 → Permutation (numbers l1) (numbers l2).
Proof.
  induction 1 as [|x l1 l2 _ IH|x y l|l1 l2 l3 _ IH1 _ IH2].
  - done.
  - destruct x as [[|[]|]| |]; simpl; try done. by constructor.
  - destruct x as [[|[]|]| |], y as [[|[]|]| |]; simpl; try done.
    apply perm_swap.
  - by rewrite IH1.
Qed.

Lemma Quantile_finalize_Permutation (ignore_nulls : bool) (q : Qc)
    (l1 l2 : list Value) :
  Forall column_value l1 → (0 ≤ q)%Qc ∧ (q ≤ 1)%Qc → Permutation l1 l2 →
  Quantile_finalize ignore_nulls (Fin q) (VList l1) =
  Quantile_finalize ignore_nulls (Fin q) (VList l2).
Proof.
  intros H1 Hq Hp.
  assert (H2 : Forall column_value l2) by (by rewrite <- Hp).
  destruct (py_sorted_fin (numbers l1)) as (s & _ & Hs & Hps).
  apply StronglySorted_Sorted in Hs.
  rewrite (Quantile_finalize_sorted ignore_nulls q l1 s H1 Hq Hps Hs).
  rewrite (Quantile_finalize_sorted ignore_nulls q l2 s H2 Hq) ; try done.
  - by rewrite !find_is_null, (existsb_Permutation _ _ _ Hp).
  - by rewrite Hps, (numbers_Permutation _ _ Hp).
Qed.

(** ** Further facts about [Quantile._finalize] *)

(** The hypotheses of the theorem on [Quantile._finalize] can always be
    met: the numbers of an accumulator have an ascending arrangement. *)
Lemma sorted_numbers_exist (acc : list Value) :
  ∃ sorted, Permutation sorted (numbers acc) ∧ Sorted Qcle sorted.
Proof.
  destruct (py_sorted_fin (numbers acc)) as (s & _ & Hs & Hp).
  exists s. split; [done|]. by apply StronglySorted_Sorted.
Qed.

(** [round_half_even] returns an integer at distance at most 1/2. *)
Lemma round_half_even_near (q : Q) :
  (inject_Z (round_half_even q) - q <= 1 # 2)%Q ∧
  (q - inject_Z (round_half_even q) <= 1 # 2)%Q.
Proof.
  unfold round_half_even.
  pose proof (Qfloor_le q) as Hlo. pose proof (Qlt_floor q) as Hhi.
  rewrite inject_Z_plus in Hhi. change (inject_Z 1) with 1%Q in Hhi.
  destruct (Qcompare_spec (q - inject_Z (Qfloor q)) (1 # 2)) as [E|E|E];
    [destruct (Z.even (Qfloor q))| |];
    rewrite ?inject_Z_plus; change (inject_Z 1) with 1%Q; split; lra.
Qed.

(** [round(x, 5)] is a multiple of 10^-5 at distance at most 5 * 10^-6
    from [x]. *)
Lemma round5_near (x : Qc) :
  ∃ z : Z, round5 x = (Zc z / Zc 100000)%Qc ∧
           (inject_Z z - x * inject_Z 100000 <= 1 # 2)%Q ∧
           (x * inject_Z 100000 - inject_Z z <= 1 # 2)%Q.
Proof.
  exists (round_half_even (x * inject_Z 100000)). split.
  - unfold round5. apply Qc_is_canon. simpl.
    rewrite !Qred_correct. reflexivity.
  - apply round_half_even_near.
Qed.

(** Outside the interval from 0 to 1 the rank leaves the list: [q = 2]
    over [[1, 2]] asks for the element at index 2. *)
Example Quantile_rank_out_of_range :
  Quantile_finalize true (Fin (Q2Qc 2)) (VList [int 1; int 2])
  = Raise IndexError.
Proof. reflexivity. Qed.

(** A rank that falls between two elements is interpolated and rounded:
    [q = 1/3] over [[1, 2]] gives 1.33333. *)
Example Quantile_rounds :
  Quantile_finalize true (Fin (Q2Qc (1 # 3))) (VList [int 2; int 1])
  = OK (finite (Q2Qc (133333 # 100000))).
Proof.
  assert (Hs : Sorted Qcle [Zc 1; Zc 2]) by (repeat constructor; discriminate).
  assert (Hacc : Forall column_value [int 2; int 1]).
  { repeat (apply Forall_cons_2; [right; eexists; reflexivity|]).
    apply Forall_nil_2. }
  assert (Hq : (0 ≤ Q2Qc (1 # 3))%Qc ∧ (Q2Qc (1 # 3) ≤ 1)%Qc)
    by (split; discriminate).
  assert (Hp : Permutation [Zc 1; Zc 2] (numbers [int 2; int 1]))
    by apply perm_swap.
  rewrite (Quantile_finalize_sorted true _ _ _ Hacc Hq Hp Hs).
  simpl. do 4 f_equal.
Qed.

(** ** [Quantile.combine] and the list objects it updates *)

Lemma Quantile_combine_unfold (x y : Value) :
  Quantile_combine x y =
  OK (VList (match x, y with
             | VList a, VList b => a ++ b
             | VList a, _ => if keeps y then a ++ [y] else a
             | _, VList b => if keeps x then b ++ [x] else b
             | _, _ => (if keeps x then [x] else [])
                       ++ (if keeps y then [y] else [])
             end)).
Proof.
  destruct x as [sx|lx|gx], y as [sy|ly|gy]; simpl; try reflexivity;
    by repeat destruct (keeps _).
Qed.

(** On operands that stand for the values [a] and [b], the in-place combine
    returns an object holding [Quantile_combine a b]; when the current
    accumulator is a list, the object returned is that list itself,
    updated.  This covers the two operands being the same list. *)
Lemma Quantile_combine_in_place_value (σ : store) (cur new : operand)
    (a b : Value) :
  value_of σ cur = OK a → value_of σ new = OK b →
  ∃ σ' r, Quantile_combine_in_place σ cur new = OK (σ', r) ∧
          value_of σ' r = Quantile_combine a b ∧
          (∀ c, cur = Ref c → r = Ref c).
Proof.
  rewrite Quantile_combine_unfold.
  unfold Quantile_combine_in_place, value_of, deref.
  destruct cur as [c|v], new as [n|w]; simpl.
  - destruct (σ !! c) as [lc|] eqn:Ec; [|done].
    destruct (σ !! n) as [ln|] eqn:En; [|done].
    intros [= <-] [= <-]. do 2 eexists. split; [reflexivity|].
    split; [|done]. simpl. by rewrite lookup_insert_eq.
  - destruct (σ !! c) as [lc|] eqn:Ec; [|done].
    destruct (is_list w) eqn:Hw; [done|].
    intros [= <-] [= <-]. do 2 eexists. split; [reflexivity|].
    split; [|done].
    destruct (keeps w); rewrite ?lookup_insert_eq, ?Ec;
      by destruct w as [s|l|g].
  - destruct (is_list v) eqn:Hv; [done|].
    destruct (σ !! n) as [ln|] eqn:En; [|done].
    intros [= <-] [= <-]. do 2 eexists. split; [reflexivity|].
    split; [|done].
    destruct (keeps v); rewrite ?lookup_insert_eq, ?En;
      by destruct v as [s|l|g].
  - destruct (is_list v) eqn:Hv; [done|].
    destruct (is_list w) eqn:Hw; [done|].
    intros [= <-] [= <-]. do 2 eexists. split; [reflexivity|].
    split; [|done]. rewrite lookup_insert_eq.
    destruct (keeps v), (keeps w); by destruct v as [s|l|g], w as [s'|l'|g'].
Qed.

(** ** The accumulators an instance can hold *)

Lemma Zc_eq_0 (n : Z) : Zc n = 0%Qc → n = 0.
Proof.
  intros H. apply (f_equal this) in H. simpl in H.
  assert (E : inject_Z n == 0) by (by rewrite <- (Qred_correct (inject_Z n)), H).
  unfold Qeq in E. simpl in E. lia.
Qed.

Lemma Zc_pos (n : Z) : 0 < n → (0 < Zc n)%Qc.
Proof.
  intros Hn. unfold Qclt. rewrite Zc_this. unfold Qlt. simpl. lia.
Qed.

Lemma py_eq_zero_int (n : Z) : n ≠ 0 → py_eq_zero (int n) = false.
Proof.
  intros Hn. unfold py_eq_zero, int. simpl.
  apply bool_decide_eq_false. intros H. apply Hn, Zc_eq_0.
  exact (f_equal (λ x, match x with Fin q => q | _ => 0%Qc end) H).
Qed.

Lemma zero_accumulator (k : Kind) :
  (∀ ddof, k ≠ Std ddof) → accumulator k (zero_factory k ()).
Proof.
  intros Hk. right. destruct k; simpl.
  - by exists 0%Qc.
  - by exists 0%Qc.
  - by exists PInf.
  - by exists NInf.
  - by exists 0%Qc, 0%Qc.
  - by destruct (Hk _ddof).
  - by exists (Fin 0%Qc).
  - by exists [].
  - left. by exists ∅.
Qed.

(** The zero value [[0, 0, 0]] of [Std] is a unit of the raw combine on the
    accumulators of the blocks. *)
Lemma Std_combine_zero_l (M2 mean count : Qc) :
  (0 < count)%Qc →
  Std_combine (VList [int 0; int 0; int 0])
              (triple (Fin M2) (Fin mean) (Fin count))
  = OK (triple (Fin M2) (Fin mean) (Fin count)).
Proof.
  intros Hc. apply Qc_pos_nonzero in Hc.
  change (VList [int 0; int 0; int 0])
    with (triple (Fin 0%Qc) (Fin 0%Qc) (Fin 0%Qc)).
  rewrite Std_combine_Fin by (by rewrite Qcplus_0_l).
  rewrite Qc_pow2. do 2 f_equal; f_equal;
    first [ring | field; first [exact Hc | by rewrite Qcplus_0_l]].
Qed.

Lemma Std_combine_zero_r (M2 mean count : Qc) :
  (0 < count)%Qc →
  Std_combine (triple (Fin M2) (Fin mean) (Fin count))
              (VList [int 0; int 0; int 0])
  = OK (triple (Fin M2) (Fin mean) (Fin count)).
Proof.
  intros Hc. apply Qc_pos_nonzero in Hc.
  change (VList [int 0; int 0; int 0])
    with (triple (Fin 0%Qc) (Fin 0%Qc) (Fin 0%Qc)).
  rewrite Std_combine_Fin by (by rewrite Qcplus_0_r).
  rewrite Qc_pow2. do 2 f_equal; f_equal;
    first [ring | field; first [exact Hc | by rewrite Qcplus_0_r]].
Qed.

Section BlockInvariant.

Context {Block : Type}.
Variable num_rows : Block → result Value.
Variables count sum min max : Block → option string → bool → result Value.
Variable sum_of_squared_diffs_from_mean :
  Block → option string → bool → Value → result Value.
Variable iter_rows : Block → result (list (option string → Value)).
Variable unique : Block → option string → result (list Value).

(** What the accessor returns (section 6 of the specification): a number of
    rows; a null or a count; a null or a finite number for a sum, a minimum
    and a maximum; a finite number for a sum of squared differences; a list
    of hashable values for the distinct values. *)
Hypothesis num_rows_int :
  ∀ b v, num_rows b = OK v → ∃ n : Z, 0 ≤ n ∧ v = int n.
Hypothesis count_int :
  ∀ b on ign v, count b on ign = OK v →
    v = VNone ∨ ∃ n : Z, 0 ≤ n ∧ v = int n.
Hypothesis sum_num :
  ∀ b on ign v, sum b on ign = OK v → v = VNone ∨ ∃ x, v = finite x.
Hypothesis min_num :
  ∀ b on ign v, min b on ign = OK v → v = VNone ∨ ∃ x, v = finite x.
Hypothesis max_num :
  ∀ b on ign v, max b on ign = OK v → v = VNone ∨ ∃ x, v = finite x.
Hypothesis squared_diffs_num :
  ∀ b on ign m v,
    sum_of_squared_diffs_from_mean b on ign m = OK v → ∃ x, v = finite x.
Hypothesis unique_scalars :
  ∀ b on l, unique b on = OK l → ∃ ls : list Scalar, l = VS <$> ls.

Abbreviation aggregate_block :=
  (aggregate_block num_rows count sum min max sum_of_squared_diffs_from_mean
     iter_rows unique).

Abbreviation produced :=
  (produced num_rows count sum min max sum_of_squared_diffs_from_mean
     iter_rows unique).

Lemma safe_aggregate_inv (f : Block → result Value) ign b v :
  _null_safe_aggregate f ign b = OK v →
  v = VNone ∨ f b = OK v.
Proof.
  unfold _null_safe_aggregate. destruct (f b) as [r|e]; [|done]. simpl.
  destruct (is_null r && ign); intros [= <-]; auto.
Qed.

Lemma count_cases (c : Value) :
  (c = VNone ∨ ∃ n : Z, 0 ≤ n ∧ c = int n) →
  py_eq_zero c || negb (py_is_not_None c) = true ∨
  ∃ n : Z, 0 < n ∧ c = int n ∧
           py_eq_zero c || negb (py_is_not_None c) = false.
Proof.
  intros [->|(n & Hn & ->)]; [by left|].
  destruct (decide (n = 0)) as [->|Hn0]; [by left|].
  right. exists n. split; [lia|]. split; [done|].
  by rewrite py_eq_zero_int.
Qed.

(** The accumulator of a block is an accumulator of the kind. *)
Lemma aggregate_block_accumulator (k : Kind) on ign b v :
  _null_safe_aggregate (aggregate_block k on ign) ign b = OK v →
  accumulator k v.
Proof.
  intros [->|H]%safe_aggregate_inv; [by left|]. destruct k; simpl in H.
  - unfold Count_aggregate_block in H. destruct on as [c|].
    + apply count_int in H as [->|(n & _ & ->)]; [by left|].
      right. by exists (Zc n).
    + apply num_rows_int in H as (n & _ & ->). right. by exists (Zc n).
  - apply sum_num in H as [->|[x ->]]; [by left|right; by exists x].
  - apply min_num in H as [->|[x ->]]; [by left|right; by exists (Fin x)].
  - apply max_num in H as [->|[x ->]]; [by left|right; by exists (Fin x)].
  - unfold Mean_aggregate_block in H.
    destruct (count b on ign) as [c|] eqn:Ec; [|done]. simpl in H.
    destruct (count_cases c (count_int _ _ _ _ Ec))
      as [Hz|(n & Hn & -> & Hz)]; rewrite Hz in H.
    { injection H as <-. by left. }
    destruct (sum b on ign) as [s|] eqn:Es; [|done]. simpl in H.
    apply sum_num in Es as [->|[x ->]]; simpl in H; injection H as <-.
    + by left.
    + right. by exists x, (Zc n).
  - unfold Std_aggregate_block in H.
    destruct (count b on ign) as [c|] eqn:Ec; [|done]. simpl in H.
    destruct (count_cases c (count_int _ _ _ _ Ec))
      as [Hz|(n & Hn & -> & Hz)]; rewrite Hz in H.
    { injection H as <-. by left. }
    destruct (sum b on ign) as [s|] eqn:Es; [|done]. simpl in H.
    apply sum_num in Es as [->|[x ->]].
    { simpl in H. injection H as <-. by left. }
    assert (Hpos : (0 < Zc n)%Qc) by (by apply Zc_pos).
    change (is_null (finite x)) with false in H. cbv iota in H.
    change (py_truediv (finite x) (int n))
      with (r ← num_div (Fin x) (Fin (Zc n)); OK (VNum r)) in H.
    rewrite num_div_Fin in H by (by apply Qc_pos_nonzero). simpl in H.
    destruct (sum_of_squared_diffs_from_mean _ _ _ _) as [m2|] eqn:Em; [|done].
    apply squared_diffs_num in Em as [y ->]. simpl in H. injection H as <-.
    right. by exists y, (x / Zc n)%Qc, (Zc n).
  - unfold AbsMax_aggregate_block in H.
    destruct (max b on ign) as [mx|] eqn:Emax; [|done]. simpl in H.
    destruct (min b on ign) as [mn|] eqn:Emin; [|done]. simpl in H.
    apply max_num in Emax as [->|[x ->]];
      apply min_num in Emin as [->|[y ->]]; simpl in H;
      try (injection H as <-; by left).
    rewrite py_max_num in H. injection H as <-.
    right. eexists. split; [|reflexivity]. by apply num_max_not_nan.
  - unfold Quantile_aggregate_block in H.
    destruct (iter_rows b) as [rows|]; [|done]. simpl in H.
    injection H as <-. right. by eexists.
  - unfold Unique_aggregate_block in H.
    destruct (unique b on) as [l|] eqn:El; [|done]. simpl in H.
    injection H as <-. apply unique_scalars in El as [ls ->].
    right. right. by exists ls.
Qed.

Lemma zero_or_accumulator (k : Kind) (v : Value) :
  accumulator k v ∨ v = zero_factory k () →
  accumulator k v ∨ (∃ ddof, k = Std ddof) ∧ v = VList [int 0; int 0; int 0].
Proof.
  intros [H| ->]; [by left|]. destruct k; try (left; by apply zero_accumulator).
  right. split; [by eexists|done].
Qed.

Lemma Std_zero_not_null : is_null (VList [int 0; int 0; int 0]) = false.
Proof. reflexivity. Qed.

Lemma safe_combine_not_null raw ign x y :
  is_null x = false → is_null y = false →
  _null_safe_combine raw ign x y = raw x y.
Proof. intros Hx Hy. destruct ign; simpl; by rewrite Hx, Hy. Qed.

(** Merging keeps the accumulators within those of the kind and its zero
    value. *)
Lemma merge_accumulator (k : Kind) ign a b r :
  accumulator k a ∨ a = zero_factory k () →
  accumulator k b ∨ b = zero_factory k () →
  _null_safe_combine (combine k) ign a b = OK r →
  accumulator k r ∨ r = zero_factory k ().
Proof.
  intros Ha%zero_or_accumulator Hb%zero_or_accumulator Hm.
  destruct Ha as [Ha|[[d ->] ->]], Hb as [Hb|[[d' Hk] ->]].
  - destruct (safe_combine_closed k ign a b Ha Hb) as (r' & Hr & Hacc).
    rewrite Hr in Hm. injection Hm as <-. by left.
  - subst k. destruct Ha as [->|Ha].
    + destruct ign; simpl in Hm; injection Hm as <-; [by right|by left; left].
    + pose proof (shape_not_null _ _ Ha) as Hnn.
      destruct Ha as (M2 & mean & cnt & Hc & ->).
      rewrite safe_combine_not_null in Hm by done. simpl in Hm.
      rewrite Std_combine_zero_r in Hm by done. injection Hm as <-.
      left. right. by do 3 eexists.
  - destruct Hb as [->|Hb].
    + destruct ign; simpl in Hm; injection Hm as <-; [by right|by left; left].
    + pose proof (shape_not_null _ _ Hb) as Hnn.
      destruct Hb as (M2 & mean & cnt & Hc & ->).
      rewrite safe_combine_not_null in Hm by done. simpl in Hm.
      rewrite Std_combine_zero_l in Hm by done. injection Hm as <-.
      left. right. by do 3 eexists.
  - rewrite safe_combine_not_null in Hm by done. discriminate Hm.
Qed.

(** Every accumulator an instance holds is an accumulator of its kind, or
    the zero value of the kind. *)
Lemma produced_accumulator (k : Kind) on ign v :
  produced k on ign v → accumulator k v ∨ v = zero_factory k ().
Proof.
  induction 1 as [key|b v Hb|a b r _ IHa _ IHb Hm].
  - destruct ign; [by left; left|by right].
  - left. by apply (aggregate_block_accumulator k on ign b).
  - by apply (merge_accumulator k ign a b r).
Qed.

End BlockInvariant.

(** ** The merged mean in floating point *)

(** The mean [Std.combine] returns is the weighted form, read in exact
    arithmetic. *)
Lemma Std_combine_mean_weighted (M2_a mean_a count_a M2_b mean_b count_b : Qc) :
  (count_a + count_b)%Qc ≠ 0%Qc →
  ∃ M2 count,
    Std_combine (triple (Fin M2_a) (Fin mean_a) (Fin count_a))
                (triple (Fin M2_b) (Fin mean_b) (Fin count_b)) =
    OK (triple M2 (Fin (weighted_mean mean_a count_a mean_b count_b)) count).
Proof.
  intros H. do 2 eexists. rewrite Std_combine_Fin by done. reflexivity.
Qed.

(** In exact arithmetic the two forms are one number ... *)
Lemma mean_forms_exact (mean_a count_a mean_b count_b : Qc) :
  (count_a + count_b)%Qc ≠ 0%Qc →
  weighted_mean mean_a count_a mean_b count_b
  = incremental_mean mean_a count_a mean_b count_b.
Proof. apply mean_forms_agree. Qed.

Section Binary64.

Import PrimFloat.

(** ... and in binary64 they are not: merging a mean of 0.1 over one value
    with a mean of 0.3 over two values gives 0.2333333333333333 in the
    weighted form and 0.23333333333333334 in the incremental one. *)
Example mean_forms_binary64 :
  PrimFloat.eqb
    (weighted_mean 0x1.999999999999ap-4 1 0x1.3333333333333p-2 2)%float
    0x1.dddddddddddddp-3%float = true ∧
  PrimFloat.eqb
    (incremental_mean 0x1.999999999999ap-4 1 0x1.3333333333333p-2 2)%float
    0x1.ddddddddddddep-3%float = true ∧
  PrimFloat.eqb
    (weighted_mean 0x1.999999999999ap-4 1 0x1.3333333333333p-2 2)%float
    (incremental_mean 0x1.999999999999ap-4 1 0x1.3333333333333p-2 2)%float
  = false.
Proof. repeat split; vm_compute; reflexivity. Qed.

End Binary64.

(** * Further properties of the aggregations *)

(** X1: the order in which two [Quantile] accumulators are merged does not
    reach the finalized quantile: for lists of nulls and finite numbers and
    a rank between 0 and 1, finalizing [combine(a, b)] and finalizing
    [combine(b, a)] give the same result. *)
Theorem Quantile_merge_order_irrelevant (ignore_nulls : bool) (q : Qc)
    (a b : list Value)
    (Ha : Forall column_value a) (Hb : Forall column_value b)
    (Hq : (0 ≤ q)%Qc ∧ (q ≤ 1)%Qc) :
  (r ← Quantile_combine (VList a) (VList b);
   Quantile_finalize ignore_nulls (Fin q) r) =
  (r ← Quantile_combine (VList b) (VList a);
   Quantile_finalize ignore_nulls (Fin q) r).
Proof.
  cbn [Quantile_combine]. rewrite !bind_OK.
  apply Quantile_finalize_Permutation; [|done|apply Permutation_app_comm].
  by apply Forall_app.
Qed.

Lemma Quantile_merge_order_irrelevant_witness :
  Forall column_value [int 3; VNone] ∧ Forall column_value [int 1] ∧
  ((0 ≤ Q2Qc (1 # 2))%Qc ∧ (Q2Qc (1 # 2) ≤ 1)%Qc) ∧
  (r ← Quantile_combine (VList [int 3; VNone]) (VList [int 1]);
   Quantile_finalize true (Fin (Q2Qc (1 # 2))) r) =
  (r ← Quantile_combine (VList [int 1]) (VList [int 3; VNone]);
   Quantile_finalize true (Fin (Q2Qc (1 # 2))) r).
Proof.
  assert (Ha : Forall column_value [int 3; VNone]).
  { apply Forall_cons_2; [right; by eexists|].
    apply Forall_cons_2; [by left|]. apply Forall_nil_2. }
  assert (Hb : Forall column_value [int 1]).
  { apply Forall_cons_2; [right; by eexists|]. apply Forall_nil_2. }
  assert (Hq : (0 ≤ Q2Qc (1 # 2))%Qc ∧ (Q2Qc (1 # 2) ≤ 1)%Qc)
    by (split; discriminate).
  repeat (split; [assumption|]).
  exact (Quantile_merge_order_irrelevant true _ _ _ Ha Hb Hq).
Defined.

Lemma num_min_PInf (n : num) :
  n ≠ NaN → num_min PInf n = n ∧ num_min n PInf = n.
Proof. by destruct n. Qed.

Lemma num_max_NInf (n : num) :
  n ≠ NaN → num_max NInf n = n ∧ num_max n NInf = n.
Proof. by destruct n. Qed.

Lemma num_max_0_nonneg (y : Qc) :
  (0 ≤ y)%Qc →
  num_max (Fin 0%Qc) (Fin y) = Fin y ∧ num_max (Fin y) (Fin 0%Qc) = Fin y.
Proof.
  intros Hy. unfold num_max, num_ltb, Qc_ltb. split.
  - case_bool_decide as H; [done|]. f_equal.
    apply Qcnot_lt_le in H. by apply Qcle_antisym.
  - case_bool_decide as H; [|done]. by apply Qcle_not_lt in Hy.
Qed.



(** ** [Std]: the accumulator of a concatenation *)

Lemma Zc_plus (a b : Z) : Zc (a + b) = (Zc a + Zc b)%Qc.
Proof.
  apply Qc_is_canon. unfold Zc. simpl.
  rewrite !Qred_correct. by rewrite inject_Z_plus.
Qed.

Lemma Qc_sum_app (xs ys : list Qc) :
  Qc_sum (xs ++ ys) = (Qc_sum xs + Qc_sum ys)%Qc.
Proof.
  induction xs as [|x xs IH]; simpl.
  - by rewrite Qcplus_0_l.
  - rewrite IH. apply Qcplus_assoc.
Qed.

Lemma count_of_app (xs ys : list Qc) :
  count_of (xs ++ ys) = (count_of xs + count_of ys)%Qc.
Proof. unfold count_of. by rewrite length_app, Nat2Z.inj_add, Zc_plus. Qed.

Lemma count_of_cons (x : Qc) (xs : list Qc) :
  count_of (x :: xs) = (1 + count_of xs)%Qc.
Proof. exact (count_of_app [x] xs). Qed.

Lemma count_of_pos (xs : list Qc) : xs ≠ [] → (0 < count_of xs)%Qc.
Proof.
  intros Hxs. apply Zc_pos. destruct xs; [done|]. simpl length. lia.
Qed.

Lemma squared_diffs_app (m : Qc) (xs ys : list Qc) :
  squared_diffs m (xs ++ ys) = (squared_diffs m xs + squared_diffs m ys)%Qc.
Proof. unfold squared_diffs. by rewrite fmap_app, Qc_sum_app. Qed.

(** The sum of the squared differences from [m], from the sum of the
    squares, the sum and the count. *)
Lemma squared_diffs_expand (m : Qc) (xs : list Qc) :
  squared_diffs m xs
  = (Qc_sum ((λ x, x * x)%Qc <$> xs) - (1 + 1) * m * Qc_sum xs
     + count_of xs * (m * m))%Qc.
Proof.
  induction xs as [|x xs IH].
  - unfold squared_diffs, count_of. simpl. change (Zc (Z.of_nat 0)) with 0%Qc. ring.
  - rewrite count_of_cons. unfold squared_diffs in *. rewrite !fmap_cons.
    simpl Qc_sum. rewrite IH. ring.
Qed.

(** The merge of the accumulators of two non-empty lists of values is the
    accumulator of their concatenation. *)
Lemma Std_combine_accumulators (xs ys : list Qc) :
  xs ≠ [] → ys ≠ [] →
  Std_combine (Std_accumulator xs) (Std_accumulator ys)
  = OK (Std_accumulator (xs ++ ys)).
Proof.
  intros Hxs%count_of_pos Hys%count_of_pos.
  pose proof (Qc_pos_nonzero _ Hxs) as Hn1.
  pose proof (Qc_pos_nonzero _ Hys) as Hn2.
  pose proof (Qc_pos_nonzero _ (Qcplus_pos_pos _ _ Hxs Hys)) as Hn.
  unfold Std_accumulator. rewrite Std_combine_Fin by done.
  unfold mean_of. rewrite Qc_pow2, Qc_sum_app, count_of_app, squared_diffs_app.
  rewrite !squared_diffs_expand.
  generalize (Qc_sum ((λ x, x * x)%Qc <$> xs)) (Qc_sum ((λ x, x * x)%Qc <$> ys))
    (Qc_sum xs) (Qc_sum ys) Hn1 Hn2 Hn.
  generalize (count_of xs) (count_of ys).
  intros n1 n2 Q1 Q2 S1 S2 Hn1' Hn2' Hn'.
  match goal with
  | |- OK (triple (Fin ?a) (Fin ?b) ?c) = OK (triple (Fin ?a') (Fin ?b') ?c) =>
      replace a with a' by (field; repeat split; assumption);
      replace b with b' by (field; repeat split; assumption)
  end.
  reflexivity.
Qed.

Lemma Std_merge_all_from (ddof : Z) (ign : bool) (acc : list Qc)
    (xss : list (list Qc)) :
  acc ≠ [] → Forall (λ xs, xs ≠ []) xss →
  merge_all (_null_safe_combine (combine (Std ddof)) ign)
    (Std_accumulator acc) (Std_accumulator <$> xss)
  = OK (Std_accumulator (acc ++ concat xss)).
Proof.
  intros Hacc Hne. revert acc Hacc.
  induction Hne as [|xs xss Hxs _ IH]; intros acc Hacc.
  - simpl. by rewrite app_nil_r.
  - rewrite fmap_cons. cbn [merge_all].
    rewrite safe_combine_not_null by done. cbn [combine].
    rewrite Std_combine_accumulators, bind_OK by done.
    rewrite IH by (by destruct acc). simpl. by rewrite app_assoc.
Qed.



(** ** [Mean], [Count] and [Sum] over merged accumulators *)

Lemma Mean_combine_accumulators (xs ys : list Qc) :
  Mean_combine (Mean_accumulator xs) (Mean_accumulator ys)
  = OK (Mean_accumulator (xs ++ ys)).
Proof.
  unfold Mean_combine, Mean_accumulator, finite. simpl.
  by rewrite Qc_sum_app, count_of_app.
Qed.

Lemma Mean_merge_all_from (ign : bool) (acc : list Qc) (xss : list (list Qc)) :
  merge_all (_null_safe_combine (combine Mean) ign)
    (Mean_accumulator acc) (Mean_accumulator <$> xss)
  = OK (Mean_accumulator (acc ++ concat xss)).
Proof.
  revert acc. induction xss as [|xs xss IH]; intros acc.
  - simpl. by rewrite app_nil_r.
  - rewrite fmap_cons. cbn [merge_all].
    rewrite safe_combine_not_null by done. cbn [combine].
    rewrite Mean_combine_accumulators, bind_OK, IH. simpl.
    by rewrite app_assoc.
Qed.

Lemma Mean_finalize_accumulator (xs : list Qc) :
  xs ≠ [] → Mean_finalize (Mean_accumulator xs) = OK (finite (mean_of xs)).
Proof.
  intros Hn%count_of_pos%Qc_pos_nonzero.
  unfold Mean_finalize, Mean_accumulator. simpl.
  rewrite bool_decide_eq_false_2 by congruence.
  unfold Qc_is_zero. by rewrite bool_decide_eq_false_2.
Qed.



Lemma add_merge_all_from (k : Kind) (ign : bool) (a : Qc) (xs : list Qc) :
  k = Count ∨ k = Sum →
  merge_all (_null_safe_combine (combine k) ign) (finite a) (finite <$> xs)
  = OK (finite (a + Qc_sum xs)).
Proof.
  intros Hk. revert a. induction xs as [|x xs IH]; intros a.
  - simpl. by rewrite Qcplus_0_r.
  - rewrite fmap_cons. cbn [merge_all].
    rewrite safe_combine_not_null by done.
    assert (E : combine k (finite a) (finite x) = OK (finite (a + x)))
      by (by destruct Hk as [-> | ->]).
    rewrite E, bind_OK, IH. simpl. by rewrite Qcplus_assoc.
Qed.



(** ** [Min] and [Max] over merged accumulators *)

Lemma Min_combine_finite (a x : Qc) :
  ∃ m, combine Min (finite a) (finite x) = OK (finite m) ∧
       (m = a ∨ m = x) ∧ (m ≤ a)%Qc ∧ (m ≤ x)%Qc.
Proof.
  cbn [combine]. unfold Min_combine, finite. rewrite py_min_num.
  unfold num_min, num_ltb, Qc_ltb. case_bool_decide as H.
  - exists x. repeat split; auto using Qcle_refl, Qclt_le_weak.
  - exists a. repeat split; auto using Qcle_refl, Qcnot_lt_le.
Qed.

Lemma Max_combine_finite (a x : Qc) :
  ∃ m, combine Max (finite a) (finite x) = OK (finite m) ∧
       (m = a ∨ m = x) ∧ (a ≤ m)%Qc ∧ (x ≤ m)%Qc.
Proof.
  cbn [combine]. unfold Max_combine, finite. rewrite py_max_num.
  unfold num_max, num_ltb, Qc_ltb. case_bool_decide as H.
  - exists x. repeat split; auto using Qcle_refl, Qclt_le_weak.
  - exists a. repeat split; auto using Qcle_refl, Qcnot_lt_le.
Qed.

Lemma Min_merge_all_from (ign : bool) (a : Qc) (xs : list Qc) :
  ∃ m, merge_all (_null_safe_combine (combine Min) ign) (finite a)
         (finite <$> xs) = OK (finite m) ∧
       m ∈ a :: xs ∧ Forall (λ x, (m ≤ x)%Qc) (a :: xs).
Proof.
  revert a. induction xs as [|x xs IH]; intros a.
  - exists a. split; [done|]. split; [by left|].
    apply Forall_cons_2; [apply Qcle_refl|apply Forall_nil_2].
  - rewrite fmap_cons. cbn [merge_all].
    rewrite safe_combine_not_null by done.
    destruct (Min_combine_finite a x) as (a' & -> & Hin & Ha & Hx).
    rewrite bind_OK.
    destruct (IH a') as (m & -> & Hm & Hall). exists m. split; [done|].
    apply Forall_cons in Hall as [Hma' Hall]. split.
    + apply elem_of_cons in Hm as [->|Hm].
      * destruct Hin as [->| ->]; [by left|right; by left].
      * right. by right.
    + repeat apply Forall_cons_2; try done; by apply Qcle_trans with a'.
Qed.

Lemma Max_merge_all_from (ign : bool) (a : Qc) (xs : list Qc) :
  ∃ m, merge_all (_null_safe_combine (combine Max) ign) (finite a)
         (finite <$> xs) = OK (finite m) ∧
       m ∈ a :: xs ∧ Forall (λ x, (x ≤ m)%Qc) (a :: xs).
Proof.
  revert a. induction xs as [|x xs IH]; intros a.
  - exists a. split; [done|]. split; [by left|].
    apply Forall_cons_2; [apply Qcle_refl|apply Forall_nil_2].
  - rewrite fmap_cons. cbn [merge_all].
    rewrite safe_combine_not_null by done.
    destruct (Max_combine_finite a x) as (a' & -> & Hin & Ha & Hx).
    rewrite bind_OK.
    destruct (IH a') as (m & -> & Hm & Hall). exists m. split; [done|].
    apply Forall_cons in Hall as [Hma' Hall]. split.
    + apply elem_of_cons in Hm as [->|Hm].
      * destruct Hin as [->| ->]; [by left|right; by left].
      * right. by right.
    + repeat apply Forall_cons_2; try done; by apply Qcle_trans with a'.
Qed.

(** X6: merging the block accumulators [xs] of [Min] (of [Max]) into the
    initial accumulator gives one of them that is not above (not below) any
    of them, under either null policy: the initial [+inf] ([-inf]) of
    [ignore_nulls = False] never wins over a block's value. *)
Theorem Min_Max_of_merged_blocks (ignore_nulls : bool) (key : Value)
    (xs : list Qc)
    (Hne : xs ≠ []) :
  (∃ m, merge_all (_null_safe_combine (combine Min) ignore_nulls)
          (_null_safe_zero_factory (zero_factory Min) ignore_nulls key)
          (finite <$> xs) = OK (finite m) ∧
        m ∈ xs ∧ Forall (λ x, (m ≤ x)%Qc) xs) ∧
  (∃ m, merge_all (_null_safe_combine (combine Max) ignore_nulls)
          (_null_safe_zero_factory (zero_factory Max) ignore_nulls key)
          (finite <$> xs) = OK (finite m) ∧
        m ∈ xs ∧ Forall (λ x, (x ≤ m)%Qc) xs).
Proof.
  destruct xs as [|x xs]; [done|]. rewrite fmap_cons. cbn [merge_all].
  split.
  - assert (Hfirst :
      _null_safe_combine (combine Min) ignore_nulls
        (_null_safe_zero_factory (zero_factory Min) ignore_nulls key)
        (finite x) = OK (finite x)).
    { destruct ignore_nulls; [reflexivity|].
      unfold _null_safe_zero_factory.
      rewrite safe_combine_not_null by done. cbn [combine zero_factory].
      unfold Min_combine, finite. rewrite py_min_num.
      by destruct (num_min_PInf (Fin x)) as [-> _]. }
    rewrite Hfirst, bind_OK. apply Min_merge_all_from.
  - assert (Hfirst :
      _null_safe_combine (combine Max) ignore_nulls
        (_null_safe_zero_factory (zero_factory Max) ignore_nulls key)
        (finite x) = OK (finite x)).
    { destruct ignore_nulls; [reflexivity|].
      unfold _null_safe_zero_factory.
      rewrite safe_combine_not_null by done. cbn [combine zero_factory].
      unfold Max_combine, finite. rewrite py_max_num.
      by destruct (num_max_NInf (Fin x)) as [-> _]. }
    rewrite Hfirst, bind_OK. apply Max_merge_all_from.
Qed.

Lemma Min_Max_of_merged_blocks_witness :
  [Zc 4; Zc 1; Zc 7] ≠ [] ∧
  ∃ m, merge_all (_null_safe_combine (combine Min) false) (VNum PInf)
         [int 4; int 1; int 7] = OK (finite m) ∧
       Forall (λ x, (m ≤ x)%Qc) [Zc 4; Zc 1; Zc 7].
Proof.
  split; [done|].
  destruct (proj1 (Min_Max_of_merged_blocks false VNone [Zc 4; Zc 1; Zc 7]
                     ltac:(done))) as (m & Hm & _ & Hall).
  exists m. split; [exact Hm|exact Hall].
Defined.

(** ** The order of the blocks *)

Lemma merge_all_closed (k : Kind) (ign : bool) (acc : Value) (xs : list Value) :
  accumulator k acc → Forall (accumulator k) xs →
  ∃ r, merge_all (_null_safe_combine (combine k) ign) acc xs = OK r ∧
       accumulator k r.
Proof.
  intros Hacc Hxs. revert acc Hacc.
  induction Hxs as [|x xs Hx _ IH]; intros acc Hacc.
  - by exists acc.
  - cbn [merge_all].
    destruct (safe_combine_closed k ign acc x Hacc Hx) as (r & -> & Hr).
    rewrite bind_OK. by apply IH.
Qed.

Lemma safe_combine_comm_eq (k : Kind) (ign : bool) (a b : Value) :
  (∀ q, k ≠ Quantile q) → accumulator k a → accumulator k b →
  _null_safe_combine (combine k) ign a b
  = _null_safe_combine (combine k) ign b a.
Proof.
  intros Hk Ha Hb. pose proof (safe_combine_comm k ign a b Ha Hb) as H.
  destruct k; try done. by destruct (Hk _q).
Qed.

Lemma merge_all_swap (k : Kind) (ign : bool) (acc x y : Value)
    (xs : list Value) :
  (∀ q, k ≠ Quantile q) →
  accumulator k acc → accumulator k x → accumulator k y →
  merge_all (_null_safe_combine (combine k) ign) acc (x :: y :: xs)
  = merge_all (_null_safe_combine (combine k) ign) acc (y :: x :: xs).
Proof.
  intros Hk Hacc Hx Hy. cbn [merge_all]. rewrite <- !bind_assoc.
  f_equal.
  rewrite (safe_combine_assoc k ign acc x y), (safe_combine_assoc k ign acc y x)
    by done.
  by rewrite (safe_combine_comm_eq k ign x y).
Qed.

Lemma merge_all_Permutation (k : Kind) (ign : bool) (xs ys : list Value) :
  (∀ q, k ≠ Quantile q) → Permutation xs ys → Forall (accumulator k) xs →
  ∀ acc, accumulator k acc →
    merge_all (_null_safe_combine (combine k) ign) acc xs
    = merge_all (_null_safe_combine (combine k) ign) acc ys.
Proof.
  intros Hk Hp.
  induction Hp as [|x xs ys Hp IH|x y xs|xs ys zs Hp1 IH1 Hp2 IH2];
    intros Hall acc Hacc.
  - done.
  - apply Forall_cons in Hall as [Hx Hall]. cbn [merge_all].
    destruct (safe_combine_closed k ign acc x Hacc Hx) as (r & -> & Hr).
    rewrite !bind_OK. by apply IH.
  - apply Forall_cons in Hall as [Hy Hall].
    apply Forall_cons in Hall as [Hx Hall]. by apply merge_all_swap.
  - rewrite IH1 by done. apply IH2; [|done]. by rewrite <- Hp1.
Qed.

(** The accumulator the merge starts from can change places with a later
    one. *)
Lemma merge_all_head (k : Kind) (ign : bool) (x y : Value)
    (xs ys : list Value) :
  (∀ q, k ≠ Quantile q) → Permutation (x :: xs) (y :: ys) →
  Forall (accumulator k) (x :: xs) →
  merge_all (_null_safe_combine (combine k) ign) x xs
  = merge_all (_null_safe_combine (combine k) ign) y ys.
Proof.
  intros Hk Hp Hall. pose proof Hall as Hall'.
  apply Forall_cons in Hall' as [Hx Hxs].
  assert (Hy : y ∈ x :: xs) by (rewrite Hp; by left).
  apply elem_of_cons in Hy as [->|Hy].
  - apply Permutation_cons_inv in Hp. by apply merge_all_Permutation.
  - apply elem_of_Permutation in Hy as [zs Hzs].
    assert (Hyzs : Forall (accumulator k) (y :: zs)) by (by rewrite <- Hzs).
    pose proof Hyzs as Hyzs'. apply Forall_cons in Hyzs' as [Hy Hzs'].
    rewrite (merge_all_Permutation k ign xs (y :: zs)) by done.
    cbn [merge_all]. rewrite (safe_combine_comm_eq k ign x y) by done.
    change (merge_all (_null_safe_combine (combine k) ign) y (x :: zs)
            = merge_all (_null_safe_combine (combine k) ign) y ys).
    apply merge_all_Permutation; [done| |by apply Forall_cons_2|done].
    apply (Permutation_cons_inv (a := y)).
    rewrite <- Hp, Hzs. apply perm_swap.
Qed.

(** The zero value of a kind other than [Std] is an accumulator; the one of
    [Std] gives way to the first accumulator merged into it. *)
Lemma merge_all_Std_zero (ddof : Z) (x : Value) (xs : list Value) :
  accumulator (Std ddof) x →
  merge_all (_null_safe_combine (combine (Std ddof)) false)
    (VList [int 0; int 0; int 0]) (x :: xs)
  = merge_all (_null_safe_combine (combine (Std ddof)) false) x xs.
Proof.
  intros Hx. cbn [merge_all].
  assert (E : _null_safe_combine (combine (Std ddof)) false
                (VList [int 0; int 0; int 0]) x = OK x).
  { destruct Hx as [->|Hx]; [reflexivity|].
    rewrite safe_combine_not_null by (done || by eapply shape_not_null).
    destruct Hx as (M2 & mean & cnt & Hc & ->).
    by apply Std_combine_zero_l. }
  by rewrite E.
Qed.



(** ** [Unique] over merged accumulators *)

Lemma Unique_combine_set_list (g : gset Scalar) (l : list Scalar) :
  Unique_combine (VSet g) (VList (VS <$> l)) = OK (VSet (g ∪ list_to_set l)).
Proof. unfold Unique_combine. cbn [_to_set]. by rewrite set_of_list_scalars. Qed.

Lemma Unique_combine_list_list (l1 l2 : list Scalar) :
  Unique_combine (VList (VS <$> l1)) (VList (VS <$> l2))
  = OK (VSet (list_to_set l1 ∪ list_to_set l2)).
Proof. unfold Unique_combine. cbn [_to_set]. by rewrite !set_of_list_scalars. Qed.

Lemma Unique_merge_all_from (ign : bool) (g : gset Scalar)
    (ls : list (list Scalar)) :
  merge_all (_null_safe_combine (combine Unique) ign) (VSet g)
    ((λ l, VList (VS <$> l)) <$> ls)
  = OK (VSet (g ∪ list_to_set (concat ls))).
Proof.
  revert g. induction ls as [|l ls IH]; intros g.
  - simpl. by rewrite (right_id_L ∅ (∪)).
  - rewrite fmap_cons. cbn [merge_all].
    rewrite safe_combine_not_null by done. cbn [combine].
    rewrite Unique_combine_set_list, bind_OK, IH. simpl concat.
    by rewrite list_to_set_app_L, (assoc_L (∪)).
Qed.


Lemma set_of_list_unhashable (l : list Value) (v : Value) :
  v ∈ l → (∀ s, v ≠ VS s) → set_of_list l = Raise TypeError.
Proof.
  intros Hv Hs. induction l as [|x l IH]; [by apply elem_of_nil in Hv|].
  cbn [set_of_list]. apply elem_of_cons in Hv as [<-|Hv].
  - destruct v as [s| |]; [by destruct (Hs s)|done|done].
  - rewrite (IH Hv). by destruct x as [s| |].
Qed.

Lemma set_of_list_result (l : list Value) :
  (∃ g, set_of_list l = OK g) ∨ set_of_list l = Raise TypeError.
Proof.
  induction l as [|x l IH]; [left; by eexists|]. cbn [set_of_list].
  destruct x as [s| |]; [|by right|by right]. simpl.
  destruct IH as [[g ->]| ->]; [left; by eexists|by right].
Qed.

(** X9: [Unique.combine] needs hashable values: when one of two list
    accumulators holds a list or a set among its entries, the merge raises
    [TypeError], under either null policy. *)
Theorem Unique_unhashable_entry (ignore_nulls : bool) (a b : list Value)
    (v : Value)
    (Hv : v ∈ a ++ b)
    (Hunhashable : ∀ s, v ≠ VS s) :
  _null_safe_combine (combine Unique) ignore_nulls (VList a) (VList b)
  = Raise TypeError.
Proof.
  rewrite safe_combine_not_null by done. cbn [combine].
  unfold Unique_combine. cbn [_to_set].
  apply elem_of_app in Hv as [Hv|Hv].
  - by rewrite (set_of_list_unhashable a v).
  - rewrite (set_of_list_unhashable b v) by done.
    by destruct (set_of_list_result a) as [[g ->]| ->].
Qed.

(** A column of lists: the blocks hold [[1]] and [[2]] as values. *)
Lemma Unique_unhashable_entry_witness :
  VList [int 2] ∈ [VList [int 1]] ++ [VList [int 2]] ∧
  (∀ s, VList [int 2] ≠ VS s) ∧
  _null_safe_combine (combine Unique) true
    (VList [VList [int 1]]) (VList [VList [int 2]]) = Raise TypeError.
Proof.
  assert (Hv : VList [int 2] ∈ [VList [int 1]] ++ [VList [int 2]])
    by (right; left).
  assert (Hu : ∀ s, VList [int 2] ≠ VS s) by done.
  split; [exact Hv|]. split; [exact Hu|].
  exact (Unique_unhashable_entry true _ _ _ Hv Hu).
Defined.

(** ** The standard deviation of a group *)

Lemma num_leb_Fin (x y : Qc) :
  num_leb (Fin x) (Fin y) = bool_decide (x ≤ y)%Qc.
Proof.
  unfold num_leb, num_ltb, num_eqb, Qc_ltb.
  destruct (decide (x < y)%Qc) as [Hlt|Hge].
  - rewrite (bool_decide_eq_true_2 _ Hlt). simpl. symmetry.
    apply bool_decide_eq_true_2. by apply Qclt_le_weak.
  - rewrite (bool_decide_eq_false_2 _ Hge). simpl.
    apply Qcnot_lt_le in Hge.
    destruct (decide (x = y)) as [->|Hne].
    + rewrite !bool_decide_eq_true_2; [done|apply Qcle_refl|done].
    + rewrite !bool_decide_eq_false_2; [done| |congruence].
      intros Hle. apply Hne. by apply Qcle_antisym.
Qed.

Lemma Zc_le (a b : Z) : (Zc a ≤ Zc b)%Qc ↔ a ≤ b.
Proof. unfold Qcle. by rewrite !Zc_this, <- Zle_Qle. Qed.

Lemma Qc_minus_nonpos (c d : Qc) : (c - d ≤ 0)%Qc ↔ (c ≤ d)%Qc.
Proof.
  rewrite (Qcle_minus_iff (c - d) 0), (Qcle_minus_iff c d).
  by replace (0 + - (c - d))%Qc with (d + - c)%Qc by ring.
Qed.

(** [Std._finalize] on a triple of finite numbers: the division never has a
    zero divisor. *)
Lemma Std_finalize_Fin (math_sqrt : num → result num) (ddof : Z)
    (M2 mean count : Qc) :
  Std_finalize math_sqrt ddof (triple (Fin M2) (Fin mean) (Fin count))
  = if decide (count ≤ Zc ddof)%Qc then OK (VNum NaN)
    else r ← math_sqrt (Fin (M2 / (count - Zc ddof))%Qc); OK (VNum r).
Proof.
  unfold Std_finalize, triple. cbn [py_unpack3]. rewrite bind_OK.
  change (py_sub (VNum (Fin count)) (int ddof))
    with (OK (VNum (Fin (count - Zc ddof)%Qc))).
  rewrite !bind_OK.
  change (py_le (VNum (Fin (count - Zc ddof)%Qc)) (int 0))
    with (OK (num_leb (Fin (count - Zc ddof)%Qc) (Fin 0%Qc))).
  rewrite bind_OK, num_leb_Fin.
  destruct (decide (count ≤ Zc ddof)%Qc) as [Hle|Hgt].
  - by rewrite bool_decide_eq_true_2 by (by apply Qc_minus_nonpos).
  - rewrite bool_decide_eq_false_2 by (by rewrite Qc_minus_nonpos).
    change (py_truediv (VNum (Fin M2)) (VNum (Fin (count - Zc ddof)%Qc)))
      with (n ← num_div (Fin M2) (Fin (count - Zc ddof)%Qc); OK (VNum n)).
    rewrite num_div_Fin; [reflexivity|].
    intros E. apply Hgt, Qc_minus_nonpos. rewrite E. apply Qcle_refl.
Qed.



(** ** The quantile of a group *)

Lemma Quantile_merge_all_from (q : num) (ign : bool) (acc : list Value)
    (ls : list (list Value)) :
  merge_all (_null_safe_combine (combine (Quantile q)) ign) (VList acc)
    (VList <$> ls)
  = OK (VList (acc ++ concat ls)).
Proof.
  revert acc. induction ls as [|l ls IH]; intros acc.
  - simpl. by rewrite app_nil_r.
  - rewrite fmap_cons. cbn [merge_all].
    rewrite safe_combine_not_null by done. cbn [combine Quantile_combine].
    rewrite bind_OK, IH. simpl concat. by rewrite app_assoc.
Qed.



Lemma StronglySorted_last (s : list Qc) (x : Qc) :
  StronglySorted Qcle s → x ∈ s → (x ≤ nth (length s - 1) s 0%Qc)%Qc.
Proof.
  intros Hs. revert x.
  induction Hs as [|y s Hs IH Hy]; intros x Hx; [by apply elem_of_nil in Hx|].
  destruct s as [|z s]; simpl.
  - apply elem_of_cons in Hx as [->|Hx]; [apply Qcle_refl|].
    by apply elem_of_nil in Hx.
  - simpl in IH. rewrite Nat.sub_0_r in IH.
    apply elem_of_cons in Hx as [->|Hx]; [|by apply IH].
    apply Qcle_trans with z.
    + by apply Forall_cons in Hy as [Hy _].
    + apply IH. by left.
Qed.

Lemma Qfloor_Zc (z : Z) : Qfloor (Zc z) = z.
Proof. by rewrite (Qfloor_comp _ _ (Zc_this z)), Qfloor_Z. Qed.

Lemma Qceiling_Zc (z : Z) : Qceiling (Zc z) = z.
Proof. by rewrite (Qceiling_comp _ _ (Zc_this z)), Qceiling_Z. Qed.

(** X12: with [ignore_nulls], the quantile of rank 0 is the smallest and the
    quantile of rank 1 the largest of the numbers of the accumulator: both
    are entries of the accumulator, returned without interpolation or
    rounding. *)
Theorem Quantile_extremes (acc : list Value)
    (Hacc : Forall column_value acc)
    (Hne : numbers acc ≠ []) :
  ∃ lo hi : Qc,
    Quantile_finalize true (Fin 0%Qc) (VList acc) = OK (finite lo) ∧
    Quantile_finalize true (Fin 1%Qc) (VList acc) = OK (finite hi) ∧
    lo ∈ numbers acc ∧ hi ∈ numbers acc ∧
    Forall (λ x, (lo ≤ x)%Qc ∧ (x ≤ hi)%Qc) (numbers acc).
Proof.
  destruct (py_sorted_fin (numbers acc)) as (s & _ & Hs & Hp).
  pose proof (StronglySorted_Sorted Hs) as Hsorted.
  assert (H0 : (0 ≤ 0)%Qc ∧ (0 ≤ 1)%Qc) by (split; discriminate).
  assert (H1 : (0 ≤ 1)%Qc ∧ (1 ≤ 1)%Qc) by (split; discriminate).
  rewrite (Quantile_finalize_sorted true 0%Qc acc s Hacc H0 Hp Hsorted).
  rewrite (Quantile_finalize_sorted true 1%Qc acc s Hacc H1 Hp Hsorted).
  destruct s as [|y s'] eqn:Es.
  { apply Permutation_nil in Hp. congruence. }
  rewrite <- Es in *. clear H0 H1.
  assert (Hlo : quantile_of_sorted 0 s = y).
  { unfold quantile_of_sorted. rewrite Qcmult_0_r.
    change (Qfloor 0%Qc) with 0. change (Qceiling 0%Qc) with 0.
    rewrite decide_True by done. by rewrite Es. }
  assert (Hhi : quantile_of_sorted 1 s = nth (length s - 1) s 0%Qc).
  { unfold quantile_of_sorted. rewrite Qcmult_1_r, Qfloor_Zc, Qceiling_Zc.
    rewrite decide_True by done. f_equal. lia. }
  exists y, (nth (length s - 1) s 0%Qc). rewrite Hlo, Hhi.
  split; [done|]. split; [done|].
  assert (Hin : nth (length s - 1) s 0%Qc ∈ s).
  { apply list_elem_of_In, nth_In. rewrite Es. simpl. lia. }
  split; [rewrite <- Hp, Es; by left|]. split; [by rewrite <- Hp|].
  rewrite <- Hp. apply Forall_forall. intros x Hx. split.
  - rewrite Es in Hs, Hx. apply StronglySorted_inv in Hs as [_ Hy].
    apply elem_of_cons in Hx as [->|Hx]; [apply Qcle_refl|].
    by apply (proj1 (Forall_forall _ _) Hy).
  - by apply StronglySorted_last.
Qed.

(** The accumulator [[2, None, 5, 1]]: 1 and 5. *)
Lemma Quantile_extremes_witness :
  Forall column_value [int 2; VNone; int 5; int 1] ∧
  numbers [int 2; VNone; int 5; int 1] ≠ [] ∧
  ∃ lo hi : Qc,
    Quantile_finalize true (Fin 0%Qc) (VList [int 2; VNone; int 5; int 1])
    = OK (finite lo) ∧
    Quantile_finalize true (Fin 1%Qc) (VList [int 2; VNone; int 5; int 1])
    = OK (finite hi).
Proof.
  assert (Hacc : Forall column_value [int 2; VNone; int 5; int 1]).
  { repeat (apply Forall_cons_2;
              [first [by left | right; eexists; reflexivity]|]).
    apply Forall_nil_2. }
  assert (Hne : numbers [int 2; VNone; int 5; int 1] ≠ []) by done.
  split; [exact Hacc|]. split; [exact Hne|].
  destruct (Quantile_extremes _ Hacc Hne) as (lo & hi & Hlo & Hhi & _).
  by exists lo, hi.
Defined.
